(** * pypi_simple.parse_old: link extraction from simple-repository pages

    A shallow embedding of [src/pypi_simple/parse_old.py]
    ([parse_links], [parse_simple_index], [parse_project_page]) together
    with the parts of its collaborators that the module's behaviour rests
    on: Python's [str] methods, [urllib.parse.urljoin], and the tree that
    [BeautifulSoup(html, 'html.parser')] hands back, or the exception with
    which it rejects the page.

    Python values are modelled as follows.
    - [str]: [string]; a character is a code point in the Latin-1 range.
    - [Optional[str]]: [option string].
    - [dict] with string keys (a tag's [attrs]): [gmap string _].
    - an exception that leaves a function: the [Err] case of [result].
    - a generator: the finite lazy sequence [gen]; and, where the state
      that generators share is at stake (the result cache of [urlsplit]),
      a [generator] that is resumed with that state. *)

From Stdlib Require Import Ascii String.
From stdpp Require Import base option list gmap strings.

Set Warnings "-register-all".

(** ** Exceptions and fallible results *)

Inductive exception : Type :=
  | KeyError (key : string)
  | TypeError (msg : string)
  | ValueError (msg : string)
  | RaisedBy (who : string) (msg : string).

Inductive result (A : Type) : Type :=
  | Ok (a : A)
  | Err (e : exception).
Arguments Ok {A} a.
Arguments Err {A} e.

Definition bind {A B} (k : A → result B) (r : result A) : result B :=
  match r with
  | Ok a => k a
  | Err e => Err e
  end.

#[global] Instance result_bind : MBind result := @bind.

(** ** Python [str] *)

Module Str.

Definition code (c : ascii) : nat := nat_of_ascii c.

(** [str.isspace] on one character, for code points below 256:
    TAB, LF, VT, FF, CR, FS, GS, RS, US, SPACE, NEL and NBSP. *)
Definition isspace (c : ascii) : bool :=
  let n := code c in
  (((9 <=? n) && (n <=? 13)) || ((28 <=? n) && (n <=? 32))
   || (n =? 133) || (n =? 160))%nat.

(** [str.lower] on one character: A-Z, and the Latin-1 capitals
    U+00C0..U+00DE except the multiplication sign U+00D7. *)
Definition lower_char (c : ascii) : ascii :=
  let n := code c in
  if (((65 <=? n) && (n <=? 90))
      || ((192 <=? n) && (n <=? 222) && negb (n =? 215)))%nat
  then ascii_of_nat (n + 32) else c.

Fixpoint lower (s : string) : string :=
  match s with
  | EmptyString => EmptyString
  | String c s' => String (lower_char c) (lower s')
  end.

(** [s.lstrip(chars)] for a set of characters given as a predicate. *)
Fixpoint lstrip_by (p : ascii → bool) (s : string) : string :=
  match s with
  | EmptyString => EmptyString
  | String c s' => if p c then lstrip_by p s' else s
  end.

(** [s.rstrip(chars)]: a character is dropped when it and everything
    after it belong to the set. *)
Fixpoint rstrip_by (p : ascii → bool) (s : string) : string :=
  match s with
  | EmptyString => EmptyString
  | String c s' =>
      match rstrip_by p s' with
      | EmptyString => if p c then EmptyString else String c EmptyString
      | r => String c r
      end
  end.

Definition strip_by (p : ascii → bool) (s : string) : string :=
  rstrip_by p (lstrip_by p s).

(** [s.strip()] *)
Definition strip (s : string) : string := strip_by isspace s.

(** [''.join(parts)] *)
Fixpoint join0 (parts : list string) : string :=
  match parts with
  | [] => EmptyString
  | p :: ps => p +:+ join0 ps
  end.

(** [sep.join(parts)] *)
Fixpoint join (sep : string) (parts : list string) : string :=
  match parts with
  | [] => EmptyString
  | [p] => p
  | p :: ps => p +:+ sep +:+ join sep ps
  end.

(** [c in s] *)
Fixpoint contains (c : ascii) (s : string) : bool :=
  match s with
  | EmptyString => false
  | String d s' => if Ascii.eqb c d then true else contains c s'
  end.

(** [all(p(c) for c in s)] *)
Fixpoint all (p : ascii → bool) (s : string) : bool :=
  match s with
  | EmptyString => true
  | String c s' => p c && all p s'
  end.

(** [s.replace(c, "")] for a one-character [c]. *)
Fixpoint remove (c : ascii) (s : string) : string :=
  match s with
  | EmptyString => EmptyString
  | String d s' => if Ascii.eqb c d then remove c s' else String d (remove c s')
  end.

(** [s.split(c)] for a one-character separator: never empty. *)
Fixpoint split (c : ascii) (s : string) : list string :=
  match s with
  | EmptyString => [EmptyString]
  | String d s' =>
      if Ascii.eqb c d then EmptyString :: split c s'
      else match split c s' with
           | [] => [String d EmptyString]
           | w :: ws => String d w :: ws
           end
  end.

(** [s.split(c, 1)] when [c in s]: the text before and after the
    first [c]; [None] when [c] does not occur. *)
Fixpoint split1 (c : ascii) (s : string) : option (string * string) :=
  match s with
  | EmptyString => None
  | String d s' =>
      if Ascii.eqb c d then Some (EmptyString, s')
      else match split1 c s' with
           | Some (a, b) => Some (String d a, b)
           | None => None
           end
  end.

(** [s.find(c, start)] and [s.rfind(c)] for a one-character [c]; [None]
    stands for Python's [-1]. *)
Definition find (c : ascii) (start : nat) (s : string) : option nat :=
  String.index start (String c EmptyString) s.

Fixpoint rfind_from (c : ascii) (i : nat) (s : string) : option nat :=
  match s with
  | EmptyString => None
  | String d s' =>
      match rfind_from c (S i) s' with
      | Some j => Some j
      | None => if Ascii.eqb c d then Some i else None
      end
  end.

Definition rfind (c : ascii) (s : string) : option nat := rfind_from c 0 s.

(** Slices [s[:i]] and [s[i:]] for [0 <= i]. *)
Definition upto (i : nat) (s : string) : string := String.substring 0 i s.
Definition from (i : nat) (s : string) : string :=
  String.substring i (String.length s - i) s.

(** [re.findall(r"\S+", s)]: the maximal runs of non-whitespace
    characters, left to right. *)
Fixpoint findall_nonspace (s : string) : list string :=
  match s with
  | EmptyString => []
  | String c s' =>
      if isspace c then findall_nonspace s'
      else match s' with
           | EmptyString => [String c EmptyString]
           | String d _ =>
               if isspace d then String c EmptyString :: findall_nonspace s'
               else match findall_nonspace s' with
                    | [] => [String c EmptyString]
                    | w :: ws => String c w :: ws
                    end
           end
  end.

End Str.

(** ** [urllib.parse.urljoin]

    [parse_links] resolves every URL with the standard library's
    [urljoin(base, url)].  The definitions below follow [urllib/parse.py]
    of CPython 3.10 (as of 3.10.12) for [str] arguments: [urlsplit],
    [urlparse], [urlunsplit], [urlunparse] and [urljoin], with
    [allow_fragments=True].  [_checknetloc] is left out: it rejects only
    characters whose NFKC form contains one of [/?#@:], and there is none
    below U+0100.  [urlsplit] is given here without its result cache;
    the cache is added in [with_cache] below.  Later releases also
    check that what stands between square brackets in a network location
    is an IP address; that check is not part of the version modelled. *)

Module urllib.

Definition uses_relative : list string :=
  [""; "ftp"; "http"; "gopher"; "nntp"; "imap"; "wais"; "file"; "https";
   "shttp"; "mms"; "prospero"; "rtsp"; "rtspu"; "sftp"; "svn"; "svn+ssh";
   "ws"; "wss"].

Definition uses_netloc : list string :=
  [""; "ftp"; "http"; "gopher"; "nntp"; "telnet"; "imap"; "wais"; "file";
   "mms"; "https"; "shttp"; "snews"; "prospero"; "rtsp"; "rtspu"; "rsync";
   "svn"; "svn+ssh"; "sftp"; "nfs"; "git"; "git+ssh"; "ws"; "wss"].

Definition uses_params : list string :=
  [""; "ftp"; "hdl"; "prospero"; "http"; "imap"; "https"; "shttp"; "rtsp";
   "rtspu"; "sip"; "sips"; "mms"; "sftp"; "tel"].

Definition scheme_chars : string :=
  "abcdefghijklmnopqrstuvwxyzABCDEFGHIJKLMNOPQRSTUVWXYZ0123456789+-.".

(** [x in xs] for a list of strings. *)
Definition member (x : string) (xs : list string) : bool :=
  bool_decide (x ∈ xs).

(** [_WHATWG_C0_CONTROL_OR_SPACE]: U+0000..U+0020. *)
Definition c0_control_or_space (c : ascii) : bool :=
  (Str.code c <=? 32)%nat.

(** [_UNSAFE_URL_BYTES_TO_REMOVE = ['\t', '\r', '\n']] *)
Definition remove_unsafe (s : string) : string :=
  Str.remove "010" (Str.remove "013" (Str.remove "009" s)).

(** [_splitnetloc(url, start)]: the earliest of [/], [?] and [#] at or
    after [start] ends the network location. *)
Definition _splitnetloc (url : string) (start : nat) : string * string :=
  let step (delim : nat) (c : ascii) : nat :=
    match Str.find c start url with
    | Some wdelim => Nat.min delim wdelim
    | None => delim
    end in
  let delim := step (step (step (String.length url) "/"%char) "?"%char) "#"%char in
  (String.substring start (delim - start) url, Str.from delim url).

Record SplitResult : Type := mkSplit {
  s_scheme : string; s_netloc : string; s_path : string;
  s_query : string; s_fragment : string }.

(** [url[0].isascii() and url[0].isalpha()] *)
Definition starts_with_letter (url : string) : bool :=
  match url with
  | String c _ =>
      let n := Str.code c in
      (((65 <=? n) && (n <=? 90)) || ((97 <=? n) && (n <=? 122)))%nat
  | EmptyString => false
  end.

(** The first lines of [urlsplit]: [url] and [scheme] with the leading
    control characters and blanks and the tabs and line ends removed.
    The pair is the key of the result cache. *)
Definition urlsplit_key (url scheme : string) : string * string :=
  (remove_unsafe (Str.lstrip_by c0_control_or_space url),
   remove_unsafe (Str.strip_by c0_control_or_space scheme)).

(** The rest of [urlsplit], which runs when the cache has no result for
    the key. *)
Definition urlsplit_parse (url scheme : string) : result SplitResult :=
  let '(scheme, url) :=
    match Str.find ":" 0 url with
    | Some (S i') =>
        let i := S i' in
        if starts_with_letter url
           && Str.all (λ c, Str.contains c scheme_chars) (Str.upto i url)
        then (Str.lower (Str.upto i url), Str.from (i + 1) url)
        else (scheme, url)
    | _ => (scheme, url)
    end in
  '(netloc, url) ←
    (if String.eqb (Str.upto 2 url) "//" then
       let '(netloc, url) := _splitnetloc url 2 in
       if (Str.contains "[" netloc && negb (Str.contains "]" netloc))
          || (Str.contains "]" netloc && negb (Str.contains "[" netloc))
       then Err (ValueError "Invalid IPv6 URL")
       else Ok (netloc, url)
     else Ok ("", url));
  let '(url, fragment) :=
    match Str.split1 "#" url with
    | Some (u, f) => (u, f)
    | None => (url, "")
    end in
  let '(url, query) :=
    match Str.split1 "?" url with
    | Some (u, q) => (u, q)
    | None => (url, "")
    end in
  Ok (mkSplit scheme netloc url query fragment).

Definition urlsplit (url scheme : string) : result SplitResult :=
  urlsplit_parse (urlsplit_key url scheme).1 (urlsplit_key url scheme).2.

Definition _splitparams (url : string) : string * string :=
  let cut (i : nat) := (Str.upto i url, Str.from (i + 1) url) in
  match Str.rfind "/" url with
  | Some slash =>
      match Str.find ";" slash url with
      | Some i => cut i
      | None => (url, "")
      end
  | None =>
      match Str.find ";" 0 url with
      | Some i => cut i
      | None => (url, "")
      end
  end.

Record ParseResult : Type := mkParse {
  scheme : string; netloc : string; path : string;
  params : string; query : string; fragment : string }.

(** [urlparse], from the result of its call of [urlsplit] on. *)
Definition urlparse_result (r : SplitResult) : ParseResult :=
  let '(url, params) :=
    if member (s_scheme r) uses_params && Str.contains ";" (s_path r)
    then _splitparams (s_path r)
    else (s_path r, "") in
  mkParse (s_scheme r) (s_netloc r) url params (s_query r) (s_fragment r).

Definition urlparse (url scheme : string) : result ParseResult :=
  r ← urlsplit url scheme;
  Ok (urlparse_result r).

Definition nonempty (s : string) : bool := negb (String.eqb s "").

Definition urlunsplit (scheme netloc url query fragment : string) : string :=
  let url :=
    if nonempty netloc
       || (nonempty scheme && member scheme uses_netloc
           && negb (String.eqb (Str.upto 2 url) "//"))
    then
      let url := if nonempty url && negb (String.eqb (Str.upto 1 url) "/")
                 then "/" +:+ url else url in
      "//" +:+ netloc +:+ url
    else url in
  let url := if nonempty scheme then scheme +:+ ":" +:+ url else url in
  let url := if nonempty query then url +:+ "?" +:+ query else url in
  if nonempty fragment then url +:+ "#" +:+ fragment else url.

Definition urlunparse (p : ParseResult) : string :=
  let url := if nonempty (params p) then path p +:+ ";" +:+ params p
             else path p in
  urlunsplit (scheme p) (netloc p) url (query p) (fragment p).

(** The loop of [urljoin] over the path segments: [..] pops (and is
    ignored on an empty stack), [.] is skipped. *)
Fixpoint resolve (segments resolved_path : list string) : list string :=
  match segments with
  | [] => resolved_path
  | seg :: rest =>
      if String.eqb seg ".." then resolve rest (removelast resolved_path)
      else if String.eqb seg "." then resolve rest resolved_path
      else resolve rest (resolved_path ++ [seg])%list
  end.

(** [segments[1:-1] = filter(None, segments[1:-1])] *)
Definition drop_inner_empty (segments : list string) : list string :=
  match segments with
  | [] => []
  | [s] => [s]
  | s :: rest =>
      (s :: filter (λ x, nonempty x = true) (removelast rest)
         ++ [List.last rest ""])%list
  end.

(** [urljoin], from the results [b] and [u] of its two calls of
    [urlparse] on. *)
Definition urljoin_parsed (url : string) (b u : ParseResult) : string :=
  if negb (String.eqb (scheme u) (scheme b))
     || negb (member (scheme u) uses_relative)
  then url
  else if member (scheme u) uses_netloc && nonempty (netloc u)
  then urlunparse u
  else
    let netloc := if member (scheme u) uses_netloc then netloc b
                  else netloc u in
    if negb (nonempty (path u)) && negb (nonempty (params u))
    then
      let query := if nonempty (query u) then query u else query b in
      urlunparse (mkParse (scheme u) netloc (path b) (params b)
                          query (fragment u))
    else
      let base_parts := Str.split "/" (path b) in
      let base_parts :=
        if nonempty (List.last base_parts "") then removelast base_parts
        else base_parts in
      let segments :=
        if String.eqb (Str.upto 1 (path u)) "/" then Str.split "/" (path u)
        else drop_inner_empty (base_parts ++ Str.split "/" (path u))%list in
      let resolved_path := resolve segments [] in
      let resolved_path :=
        if member (List.last segments "") ["."; ".."]
        then (resolved_path ++ [""])%list else resolved_path in
      let joined := Str.join "/" resolved_path in
      urlunparse (mkParse (scheme u) netloc
                          (if nonempty joined then joined else "/")
                          (params u) (query u) (fragment u)).

Definition urljoin (base url : string) : result string :=
  if negb (nonempty base) then Ok url
  else if negb (nonempty url) then Ok base
  else
    b ← urlparse base "";
    u ← urlparse url (scheme b);
    Ok (urljoin_parsed url b u).

End urllib.

(** ** The HTML document

    The scanner of [html.parser] and the decoding of [bytes] input are not
    modelled: a document is given as the markup the scanner recognises,
    nested as BeautifulSoup's tag stack nests it.  Names are as written in
    the page (any letter case); an attribute value has its quotes removed
    and its character references replaced, and is [None] for an attribute
    written without [=].  A [Data] node is one run of character data
    ([NavigableString]), a comment, a CDATA section, a declaration or a
    processing instruction: its class is the one the handlers of
    [BeautifulSoupHTMLParser] ask [endData] for.  The class of the string
    in the tree follows from it and from the tags that are open (see
    [bs4.string_container]). *)

Inductive string_class : Type :=
  | NavigableString | CData | Comment | Declaration | Doctype
  | ProcessingInstruction.

#[global] Instance string_class_eq_dec : EqDecision string_class.
Proof. solve_decision. Defined.

Inductive markup : Type :=
  | Data (cls : string_class) (data : string)
  | Element (name : string) (attrs : list (string * option string))
            (children : list markup).

(** ** The BeautifulSoup tree *)

Module bs4.

(** The value of an attribute in [Tag.attrs]: a [str], or a [list] of
    [str] for a multi-valued attribute. *)
Inductive attr_value : Type :=
  | AStr (s : string)
  | AList (l : list string).

(** The class of a string in the tree: the class asked for, or, for
    character data inside [script], [style], [template], [rt] and [rp],
    the class that goes with that tag (BeautifulSoup 4.9 and later). *)
Inductive string_type : Type :=
  | Asked (cls : string_class)
  | Script | Stylesheet | TemplateString | RubyTextString
  | RubyParenthesisString.

#[global] Instance string_type_eq_dec : EqDecision string_type.
Proof. solve_decision. Defined.

Inductive element : Type :=
  | Text (cls : string_type) (s : string)
  | Tag (name : string) (attrs : gmap string attr_value)
        (contents : list element).

(** [HTMLTreeBuilder.cdata_list_attributes] *)
Definition cdata_list_attributes : list (string * list string) :=
  [("*", ["class"; "accesskey"; "dropzone"]);
   ("a", ["rel"; "rev"]);
   ("link", ["rel"; "rev"]);
   ("td", ["headers"]);
   ("th", ["headers"]);
   ("form", ["accept-charset"]);
   ("object", ["archive"]);
   ("area", ["rel"]);
   ("icon", ["sizes"]);
   ("iframe", ["sandbox"]);
   ("output", ["for"])].

(** [cdata_list_attributes.get(key, [])] *)
Fixpoint table_get (key : string) (table : list (string * list string))
  : list string :=
  match table with
  | [] => []
  | (k, v) :: rest => if String.eqb k key then v else table_get key rest
  end.

(** The test of [_replace_cdata_list_attribute_values]:
    [attr in universal or (tag_specific and attr in tag_specific)]. *)
Definition is_cdata_list (tag_name attr : string) : bool :=
  let universal := table_get "*" cdata_list_attributes in
  let tag_specific := table_get (Str.lower tag_name) cdata_list_attributes in
  bool_decide (attr ∈ universal) || bool_decide (attr ∈ tag_specific).

(** [TreeBuilder._replace_cdata_list_attribute_values]: the value of a
    multi-valued attribute becomes [nonwhitespace_re.findall(value)]. *)
Definition _replace_cdata_list_attribute_values
    (tag_name : string) (attrs : gmap string string)
  : gmap string attr_value :=
  map_imap (λ attr value,
              Some (if is_cdata_list tag_name attr
                    then AList (Str.findall_nonspace value)
                    else AStr value)) attrs.

(** The loop of [BeautifulSoupHTMLParser.handle_starttag] that builds
    [attr_dict]: [None] becomes the empty string, and a repeated
    attribute keeps its last value ([on_duplicate_attribute] unset). *)
Definition attr_dict (attrs : list (string * option string))
  : gmap string string :=
  fold_left (λ d kv, <[kv.1 := default "" kv.2]> d) attrs ∅.

(** [HTMLParser.parse_starttag]: the tag name and the attribute names
    are lower-cased before [handle_starttag] sees them. *)
Definition parse_starttag (name : string)
    (attrs : list (string * option string))
  : string * list (string * option string) :=
  (Str.lower name, (λ kv, (Str.lower kv.1, kv.2)) <$> attrs).

(** The [attrs] of the [Tag] created for a start tag. *)
Definition start_tag_attrs (name : string)
    (attrs : list (string * option string)) : gmap string attr_value :=
  let '(tag, attrs) := parse_starttag name attrs in
  _replace_cdata_list_attribute_values tag (attr_dict attrs).

(** [HTMLTreeBuilder.preserve_whitespace_tags] *)
Definition preserve_whitespace_tags : list string := ["pre"; "textarea"].

(** [BeautifulSoup.ASCII_SPACES] *)
Definition ascii_space (c : ascii) : bool :=
  bool_decide (Str.code c ∈ [32; 10; 9; 12; 13]).

(** [BeautifulSoup.endData]: a string of ASCII spaces only, outside
    [pre] and [textarea], is replaced by one newline or one space. *)
Definition endData (preserve : bool) (current_data : string) : string :=
  if Str.all ascii_space current_data && negb preserve
  then (if Str.contains "010" current_data then String "010" "" else " ")
  else current_data.

(** [HTMLTreeBuilder.DEFAULT_STRING_CONTAINERS] *)
Definition string_containers : list (string * string_type) :=
  [("rt", RubyTextString); ("rp", RubyParenthesisString);
   ("style", Stylesheet); ("script", Script);
   ("template", TemplateString)].

(** [string_containers.get(name)] *)
Fixpoint containers_get (name : string)
    (table : list (string * string_type)) : option string_type :=
  match table with
  | [] => None
  | (k, c) :: rest => if String.eqb k name then Some c
                      else containers_get name rest
  end.

(** The top of [string_container_stack]: the class that goes with the
    innermost open tag that has one.  [stack] holds the names of the open
    tags, the innermost first. *)
Fixpoint innermost_container (stack : list string) : option string_type :=
  match stack with
  | [] => None
  | name :: outer =>
      match containers_get name string_containers with
      | Some c => Some c
      | None => innermost_container outer
      end
  end.

(** [BeautifulSoup.string_container]: only a plain [NavigableString] is
    replaced by the class of the enclosing container tag. *)
Definition string_container (stack : list string)
    (base_class : string_class) : string_type :=
  match base_class with
  | NavigableString =>
      default (Asked NavigableString) (innermost_container stack)
  | _ => Asked base_class
  end.

(** Whether a tag of [preserve_whitespace_tags] is open. *)
Definition preserves (stack : list string) : bool :=
  existsb (λ name, bool_decide (name ∈ preserve_whitespace_tags)) stack.

(** The tree built for one piece of markup met while the tags of [stack]
    are open. *)
Fixpoint build (stack : list string) (m : markup) : element :=
  match m with
  | Data cls data =>
      Text (string_container stack cls) (endData (preserves stack) data)
  | Element name attrs children =>
      let tag := Str.lower name in
      Tag tag (start_tag_attrs name attrs)
          (map (build (tag :: stack)) children)
  end.

(** The root of the tree, [BeautifulSoup.ROOT_TAG_NAME]. *)
Definition ROOT_TAG_NAME : string := "[document]".

Definition soup_of (doc : list markup) : element :=
  Tag ROOT_TAG_NAME ∅ (map (build []) doc).

(** [Tag.descendants]: every element below the tag, in document order
    (a parent before its children, siblings left to right). *)
Fixpoint descendants (e : element) : list element :=
  match e with
  | Text _ _ => []
  | Tag _ _ contents => contents ≫= λ c, c :: descendants c
  end.

(** [Tag.attrs] and [Tag.name]; a string node has neither. *)
Definition attrs (e : element) : gmap string attr_value :=
  match e with
  | Tag _ a _ => a
  | Text _ _ => ∅
  end.

(** What [SoupStrainer(name, attrs={attr: True})] accepts: a tag of that
    name whose [attrs.get(attr)] is not [None]. *)
Definition search_tag (name attr : string) (e : element) : Prop :=
  match e with
  | Tag n a _ => n = name ∧ is_Some (a !! attr)
  | Text _ _ => False
  end.

#[global] Instance search_tag_dec name attr e :
  Decision (search_tag name attr e).
Proof. destruct e; simpl; apply _. Defined.

(** [tag.find_all(name, **{attr: True})] *)
Definition find_all (tag : element) (name attr : string) : list element :=
  filter (search_tag name attr) (descendants tag).

(** [tag.find(name, **{attr: True})]: the first result of [find_all],
    or [None]. *)
Definition find (tag : element) (name attr : string) : option element :=
  head (find_all tag name attr).

(** [tag[key]], that is [tag.attrs[key]]. *)
Definition getitem (tag : element) (key : string) : result attr_value :=
  match tag with
  | Tag _ a _ =>
      match a !! key with
      | Some v => Ok v
      | None => Err (KeyError key)
      end
  | Text _ _ => Err (TypeError "string indices must be integers")
  end.

(** [Tag.interesting_string_types]: the class of its own strings for a
    container tag, and otherwise [Tag.DEFAULT_INTERESTING_STRING_TYPES]. *)
Definition interesting_string_types (tag : element) : list string_type :=
  match tag with
  | Tag name _ _ =>
      match containers_get name string_containers with
      | Some c => [c]
      | None => [Asked NavigableString; Asked CData]
      end
  | Text _ _ => [Asked NavigableString; Asked CData]
  end.

(** [Tag.strings]: the descendants that are strings of one of the
    interesting classes of the tag, in document order. *)
Definition strings (tag : element) : list string :=
  omap (λ d, match d with
             | Text cls s =>
                 if bool_decide (cls ∈ interesting_string_types tag)
                 then Some s else None
             | Tag _ _ _ => None
             end) (descendants tag).

End bs4.

(** ** Generators

    A generator that ends is a finite lazy sequence: it yields a value
    and goes on, returns ([Done]), or lets an exception escape. *)

Inductive gen (A : Type) : Type :=
  | Done
  | Raise (e : exception)
  | Yield (a : A) (rest : gen A).
Arguments Done {A}.
Arguments Raise {A} e.
Arguments Yield {A} a rest.

(** The values a consumer receives before the generator ends. *)
Fixpoint yielded {A} (g : gen A) : list A :=
  match g with
  | Done | Raise _ => []
  | Yield a rest => a :: yielded rest
  end.

(** The exception, if any, that ends the iteration. *)
Fixpoint raised {A} (g : gen A) : option exception :=
  match g with
  | Done => None
  | Raise e => Some e
  | Yield _ rest => raised rest
  end.

(** [for x in xs: yield body(x)], where evaluating [body(x)] may raise. *)
Fixpoint for_yield {A B} (xs : list A) (body : A → result B) : gen B :=
  match xs with
  | [] => Done
  | x :: xs' =>
      match body x with
      | Ok b => Yield b (for_yield xs' body)
      | Err e => Raise e
      end
  end.

(** ** [pypi_simple.classes] *)

(** Modelled from the spec: the [Link] class of [pypi_simple/classes.py],
    which is not among the sources; a record of the link text, the URL and
    the attributes of the tag. *)
Record Link : Type := mkLink {
  text : string;
  url : string;
  attrs : gmap string bs4.attr_value }.

(** ** [pypi_simple.parse_old] *)

Section parse_old.

(** The input of the parser ([str] or [bytes]) and what [html.parser]
    scans in it, given the [from_encoding] hint.  The parser does not
    accept every input: on a marked section it does not know, such as
    [<![x[y]]>], it raises, and the exception leaves the constructor of
    [BeautifulSoup]. *)
Context {Html : Type} (scan : Html → option string → result (list markup)).

(** [DistributionPackage.from_link], the classifier of
    [pypi_simple/classes.py]; it may raise. *)
Context {DistributionPackage : Type}
        (from_link : Link → option string → result DistributionPackage).

(** [BeautifulSoup(html, 'html.parser', from_encoding=from_encoding)] *)
Definition BeautifulSoup (html : Html) (from_encoding : option string)
  : result bs4.element :=
  match scan html from_encoding with
  | Ok doc => Ok (bs4.soup_of doc)
  | Err e => Err e
  end.

(** [urljoin] and the [url] of a link take a [str].  The value under
    [href] is one in every tag BeautifulSoup builds, since [href] is not a
    multi-valued attribute (lemmas [href_not_cdata_list], [getitem_href]);
    on a list [urljoin] raises [TypeError]. *)
Definition as_str (v : bs4.attr_value) : result string :=
  match v with
  | bs4.AStr s => Ok s
  | bs4.AList _ => Err (TypeError "Cannot mix str and non-str arguments")
  end.

(** Lines 72-77: the base URL after the [<base>] tag is taken into
    account. *)
Definition effective_base_url (soup : bs4.element)
    (base_url : option string) : result (option string) :=
  let base_tag := bs4.find soup "base" "href" in
  match base_tag with
  | Some base_tag =>
      match base_url with
      | None =>
          href ← bs4.getitem base_tag "href" ≫= as_str;
          Ok (Some href)
      | Some base_url =>
          href ← bs4.getitem base_tag "href" ≫= as_str;
          joined ← urllib.urljoin base_url href;
          Ok (Some joined)
      end
  | None => Ok base_url
  end.

(** Lines 78-84 *)
Definition basejoin (base_url : option string) (url : string)
  : result string :=
  match base_url with
  | None => Ok url
  | Some base_url => urllib.urljoin base_url url
  end.

Definition parse_links (html : Html) (base_url from_encoding : option string)
  : gen (string * string * gmap string bs4.attr_value) :=
  match BeautifulSoup html from_encoding with
  | Err e => Raise e
  | Ok soup =>
      match effective_base_url soup base_url with
      | Err e => Raise e
      | Ok base_url =>
          for_yield (bs4.find_all soup "a" "href")
            (λ link,
               let text := Str.strip (Str.join0 (bs4.strings link)) in
               href ← bs4.getitem link "href" ≫= as_str;
               url ← basejoin base_url href;
               Ok (text, url, bs4.attrs link))
      end
  end.

(** [for filename, url, _ in ...: yield (filename, url)] *)
Fixpoint project_pairs (links : gen (string * string * gmap string bs4.attr_value))
  : gen (string * string) :=
  match links with
  | Done => Done
  | Raise e => Raise e
  | Yield (filename, url, _) rest => Yield (filename, url) (project_pairs rest)
  end.

Definition parse_simple_index (html : Html)
    (base_url from_encoding : option string) : gen (string * string) :=
  project_pairs (parse_links html base_url from_encoding).

(** The loop of [parse_project_page] over the links, with the list
    [files] built so far. *)
Fixpoint collect_files (project_hint : option string)
    (links : gen (string * string * gmap string bs4.attr_value))
    (files : list DistributionPackage) : result (list DistributionPackage) :=
  match links with
  | Done => Ok files
  | Raise e => Err e
  | Yield (text, url, attrs) rest =>
      let link := mkLink text url attrs in
      package ← from_link link project_hint;
      collect_files project_hint rest (files ++ [package])
  end.

Definition parse_project_page (html : Html)
    (base_url from_encoding project_hint : option string)
  : result (list DistributionPackage) :=
  collect_files project_hint (parse_links html base_url from_encoding) [].

End parse_old.

(** ** The state that calls share

    [parse_links] keeps nothing at module level, and each call builds its
    own tree.  What its calls do share is the result cache of [urlsplit]:
    every [urljoin] reads it and writes it, at the time the generator that
    called it is advanced.  This part gives [urljoin] and [parse_links]
    with the cache threaded through, and generators that are resumed with
    the state of the cache as the other generators left it. *)

(** A function that reads and writes a state [S] and may raise. *)
Definition stateful (S A : Type) : Type := S → result A * S.

#[global] Instance stateful_ret {S} : MRet (stateful S) :=
  λ A a s, (Ok a, s).

#[global] Instance stateful_bind {S} : MBind (stateful S) :=
  λ A B k m s,
    match m s with
    | (Ok a, s') => k a s'
    | (Err e, s') => (Err e, s')
    end.

(** A step that leaves the state alone. *)
Definition pure {S A} (r : result A) : stateful S A := λ s, (r, s).

(** What a generator does when it is resumed with the state [S] as it
    finds it: it returns, raises, or yields and stays suspended. *)
Inductive resumed (S A : Type) : Type :=
  | Returns
  | Throws (e : exception)
  | Gives (a : A) (rest : S → resumed S A * S).
Arguments Returns {S A}.
Arguments Throws {S A} e.
Arguments Gives {S A} a rest.

Abbreviation generator S A := (S → resumed S A * S).

Module with_cache.

(** [_parse_cache], a [dict] from the key to the result stored under
    it, and [MAX_CACHE_SIZE]. *)
Abbreviation cache := (gmap (string * string) urllib.SplitResult).
Definition MAX_CACHE_SIZE : nat := 20.

(** [urlsplit] as it is in [urllib/parse.py] up to CPython 3.10: a
    result found in the cache is returned; otherwise the cache is cleared
    when it is full, the result is computed and, unless that raises,
    stored. *)
Definition urlsplit (url scheme : string)
  : stateful cache urllib.SplitResult :=
  λ _parse_cache,
    let key := urllib.urlsplit_key url scheme in
    match _parse_cache !! key with
    | Some cached => (Ok cached, _parse_cache)
    | None =>
        let _parse_cache : cache :=
          if (MAX_CACHE_SIZE <=? size _parse_cache)%nat then ∅
          else _parse_cache in
        match urllib.urlsplit_parse key.1 key.2 with
        | Ok v => (Ok v, <[key := v]> _parse_cache)
        | Err e => (Err e, _parse_cache)
        end
    end.

(** From CPython 3.11 on the cache is that of [functools.lru_cache]: the
    results of the last [maxsize] different calls, the latest first,
    under the arguments as given. *)
Abbreviation lru := (list ((string * string) * urllib.SplitResult)).
Definition maxsize : nat := 128.

Fixpoint cache_get (key : string * string) (links : lru)
  : option urllib.SplitResult :=
  match links with
  | [] => None
  | (k, v) :: older => if decide (k = key) then Some v
                       else cache_get key older
  end.

Definition urlsplit_lru (url scheme : string)
  : stateful lru urllib.SplitResult :=
  λ links,
    let key := (url, scheme) in
    match cache_get key links with
    | Some v => (Ok v, (key, v) :: filter (λ kv, kv.1 ≠ key) links)
    | None =>
        match urllib.urlsplit url scheme with
        | Ok v => (Ok v, take maxsize ((key, v) :: links))
        | Err e => (Err e, links)
        end
    end.

(** A cache that nothing but [urlsplit] has written holds, under a key,
    the result of parsing that key. *)
Definition valid (_parse_cache : cache) : Prop :=
  ∀ key r, _parse_cache !! key = Some r →
           urllib.urlsplit_parse key.1 key.2 = Ok r.

Definition valid_lru (links : lru) : Prop :=
  Forall (λ kv, urllib.urlsplit kv.1.1 kv.1.2 = Ok kv.2) links.

Section threaded.

(** The cache and the [urlsplit] of the interpreter. *)
Context {S : Type} (urlsplit : string → string → stateful S urllib.SplitResult).

Definition urlparse (url scheme : string) : stateful S urllib.ParseResult :=
  r ← urlsplit url scheme;
  mret (urllib.urlparse_result r).

Definition urljoin (base url : string) : stateful S string :=
  if negb (urllib.nonempty base) then mret url
  else if negb (urllib.nonempty url) then mret base
  else
    b ← urlparse base "";
    u ← urlparse url (urllib.scheme b);
    mret (urllib.urljoin_parsed url b u).

Context {Html : Type} (scan : Html → option string → result (list markup)).

(** Lines 72-77 *)
Definition effective_base_url (soup : bs4.element)
    (base_url : option string) : stateful S (option string) :=
  let base_tag := bs4.find soup "base" "href" in
  match base_tag with
  | Some base_tag =>
      match base_url with
      | None =>
          href ← pure (bs4.getitem base_tag "href" ≫= as_str);
          mret (Some href)
      | Some base_url =>
          href ← pure (bs4.getitem base_tag "href" ≫= as_str);
          joined ← urljoin base_url href;
          mret (Some joined)
      end
  | None => mret base_url
  end.

(** Lines 78-84 *)
Definition basejoin (base_url : option string) (url : string)
  : stateful S string :=
  match base_url with
  | None => mret url
  | Some base_url => urljoin base_url url
  end.

(** [for x in xs: yield body(x)] *)
Fixpoint for_yield {A B} (xs : list A) (body : A → stateful S B)
  : generator S B :=
  λ s,
    match xs with
    | [] => (Returns, s)
    | x :: xs' =>
        match body x s with
        | (Ok b, s') => (Gives b (for_yield xs' body), s')
        | (Err e, s') => (Throws e, s')
        end
    end.

(** [parse_links]: nothing runs before the generator is first advanced;
    then the page is parsed, the base URL settled, and the loop runs up to
    its first [yield]. *)
Definition parse_links (html : Html) (base_url from_encoding : option string)
  : generator S (string * string * gmap string bs4.attr_value) :=
  λ s,
    match BeautifulSoup scan html from_encoding with
    | Err e => (Throws e, s)
    | Ok soup =>
        match effective_base_url soup base_url s with
        | (Err e, s') => (Throws e, s')
        | (Ok base_url, s') =>
            for_yield (bs4.find_all soup "a" "href")
              (λ link,
                 let text := Str.strip (Str.join0 (bs4.strings link)) in
                 href ← pure (bs4.getitem link "href" ≫= as_str);
                 url ← basejoin base_url href;
                 mret (text, url, bs4.attrs link)) s'
        end
    end.

End threaded.

End with_cache.

(** ** The document as the properties read it

    The notions the specification speaks of.  Those about elements are
    defined on the markup of the page rather than on the tree: the
    elements in document order, the value written for an attribute, the
    anchors that carry an [href] and the first [<base>] that carries one.
    The text nodes of an anchor are those of its tag in the parsed tree,
    told apart by where they stand in it. *)

Module Doc.

(** The elements of a piece of markup in document order: an element
    comes before its children, and siblings come left to right. *)
Fixpoint elements (m : markup) : list markup :=
  match m with
  | Data _ _ => []
  | Element _ _ children => m :: (children ≫= elements)
  end.

Definition document_order (doc : list markup) : list markup :=
  doc ≫= elements.

(** The value written for the attribute [key] in a start tag, whatever
    the letter case of its name there: that of the last occurrence, and
    the empty string when the attribute is written without a value. *)
Fixpoint written_value (attrs : list (string * option string))
    (key : string) : option string :=
  match attrs with
  | [] => None
  | (k, v) :: rest =>
      match written_value rest key with
      | Some later => Some later
      | None => if String.eqb (Str.lower k) key then Some (default "" v)
                else None
      end
  end.

(** An element named [name] (in any letter case). *)
Definition named (name : string) (m : markup) : Prop :=
  match m with
  | Element n _ _ => Str.lower n = name
  | Data _ _ => False
  end.

(** An element named [name] that carries the attribute [attr]. *)
Definition carries (name attr : string) (m : markup) : Prop :=
  match m with
  | Element n a _ => Str.lower n = name ∧ is_Some (written_value a attr)
  | Data _ _ => False
  end.

#[global] Instance carries_dec name attr m : Decision (carries name attr m).
Proof. destruct m; simpl; apply _. Defined.

(** The anchors with an [href], in document order. *)
Definition anchors (doc : list markup) : list markup :=
  filter (carries "a" "href") (document_order doc).

(** The first [<base>] with an [href]. *)
Definition first_base (doc : list markup) : option markup :=
  head (filter (carries "base" "href") (document_order doc)).

(** The raw [href] of an element. *)
Definition href (m : markup) : string :=
  match m with
  | Element _ a _ => default "" (written_value a "href")
  | Data _ _ => ""
  end.

(** The attributes of the start tag of an element, as written. *)
Definition written (m : markup) : list (string * option string) :=
  match m with
  | Element _ a _ => a
  | Data _ _ => []
  end.

(** The attributes of the tag that BeautifulSoup makes of an element. *)
Definition attributes (m : markup) : gmap string bs4.attr_value :=
  match m with
  | Element n a _ => bs4.start_tag_attrs n a
  | Data _ _ => ∅
  end.

(** The elements below a piece of markup in document order, each with
    the names of the elements it lies in, the innermost first. *)
Fixpoint nested (ancestors : list string) (m : markup)
  : list (list string * markup) :=
  match m with
  | Data _ _ => []
  | Element n _ children =>
      (ancestors, m) :: (children ≫= nested (Str.lower n :: ancestors))
  end.

Definition placed (doc : list markup) : list (list string * markup) :=
  doc ≫= nested [].

(** The anchors with an [href], each with the elements it lies in. *)
Definition placed_anchors (doc : list markup)
  : list (list string * markup) :=
  filter (λ x, carries "a" "href" x.2) (placed doc).

(** The tag of the parsed tree that stands for an element of the page
    that lies in the elements [ancestors]. *)
Definition tag_of (ancestors : list string) (m : markup) : bs4.element :=
  bs4.build ancestors m.

(** A tree element is [built] from a piece of markup, in some place. *)
Definition built (m : markup) (e : bs4.element) : Prop :=
  ∃ ancestors, e = tag_of ancestors m.

(** A string of the tree that is a comment, a declaration, a document
    type or a processing instruction, and so not a text node. *)
Definition not_text (cls : bs4.string_type) : bool :=
  match cls with
  | bs4.Asked (Comment | Declaration | Doctype | ProcessingInstruction) =>
      true
  | _ => false
  end.

(** The text nodes below a tree element, in document order: all its
    strings but the comments and the like. *)
Fixpoint text_nodes (e : bs4.element) : list string :=
  match e with
  | bs4.Text cls s => if not_text cls then [] else [s]
  | bs4.Tag _ _ contents => contents ≫= text_nodes
  end.

(** The elements whose character data is kept apart from the text of the
    page. *)
Definition set_apart : list string :=
  ["script"; "style"; "template"; "rt"; "rp"].

Definition apart (names : list string) : bool :=
  existsb (λ name, bool_decide (name ∈ set_apart)) names.

(** The text nodes below a tree element that make up the text of a
    link: the CDATA sections, and the character data that lies in none of
    the elements [set_apart]; [inside] tells whether the place of the
    element itself lies in one. *)
Fixpoint link_text (inside : bool) (e : bs4.element) : list string :=
  match e with
  | bs4.Text cls s =>
      if not_text cls then []
      else if bool_decide (cls = bs4.Asked CData) then [s]
      else if inside then [] else [s]
  | bs4.Tag name _ contents =>
      contents ≫= link_text (inside || bool_decide (name ∈ set_apart))
  end.

(** Whitespace at either end of a string. *)
Definition starts_with_space (s : string) : bool :=
  match s with
  | String c _ => Str.isspace c
  | EmptyString => false
  end.

Fixpoint ends_with_space (s : string) : bool :=
  match s with
  | EmptyString => false
  | String c EmptyString => Str.isspace c
  | String _ s' => ends_with_space s'
  end.

(** [t] is [s] with the whitespace at both ends removed and everything
    in between kept. *)
Definition stripped (s t : string) : Prop :=
  ∃ l r, s = l +:+ t +:+ r
         ∧ Str.all Str.isspace l = true ∧ Str.all Str.isspace r = true
         ∧ starts_with_space t = false ∧ ends_with_space t = false.

(** [toks] are the tokens of [s]: the maximal runs of characters other
    than whitespace, in the order they are written. *)
Inductive tokens : string → list string → Prop :=
  | tokens_nil s :
      Str.all Str.isspace s = true → tokens s []
  | tokens_cons ws tok rest toks :
      Str.all Str.isspace ws = true →
      tok ≠ "" →
      Str.all (λ c, negb (Str.isspace c)) tok = true →
      starts_with_space rest = true ∨ rest = "" →
      tokens rest toks →
      tokens (ws +:+ tok +:+ rest) (tok :: toks).

End Doc.

(** ** Generator objects

    Calling a generator function makes a new generator object; [next]
    advances one object.  The store holds the live objects by identity
    (their index), so that sharing between two of them would show. *)

Inductive event (A : Type) : Type :=
  | Item (a : A)
  | StopIteration
  | Raised (e : exception).
Arguments Item {A} a.
Arguments StopIteration {A}.
Arguments Raised {A} e.

(** One step of a generator: what [next] returns or raises, and the
    generator afterwards (a generator that raised is finished). *)
Definition step {A} (g : gen A) : event A * gen A :=
  match g with
  | Done => (StopIteration, Done)
  | Raise e => (Raised e, Done)
  | Yield a rest => (Item a, rest)
  end.

(** [n] calls of [next] on one generator that nothing else touches. *)
Fixpoint iterate {A} (n : nat) (g : gen A) : list (event A) :=
  match n with
  | 0 => []
  | S n' => (step g).1 :: iterate n' (step g).2
  end.

(** [next(it)] on the object with identity [it]. *)
Definition next {A} (store : list (gen A)) (it : nat)
  : option (event A) * list (gen A) :=
  match store !! it with
  | Some g => (Some (step g).1, <[it := (step g).2]> store)
  | None => (None, store)
  end.

(** A schedule names, call after call, the object that [next] is applied
    to; the trace records what each call gave. *)
Fixpoint run {A} (store : list (gen A)) (schedule : list nat)
  : list (nat * event A) :=
  match schedule with
  | [] => []
  | it :: later =>
      match next store it with
      | (Some ev, store') => (it, ev) :: run store' later
      | (None, store') => run store' later
      end
  end.

(** What the consumer of the object [it] saw in a trace. *)
Definition observed {A} (it : nat) (trace : list (nat * event A))
  : list (event A) :=
  omap (λ x, if Nat.eqb x.1 it then Some x.2 else None) trace.

(** How many times [it] is scheduled. *)
Definition turns (it : nat) (schedule : list nat) : nat :=
  length (filter (λ x, x = it) schedule).

(** *** Generator objects over a shared state

    The same store, with the state that the generators share next to it:
    [next] resumes the object with the state as it is and leaves the
    state as the object left it. *)

Definition finished {S A} : generator S A := λ s, (Returns, s).

Definition next_shared {S A} (objects : list (generator S A)) (s : S)
    (it : nat) : option (event A) * list (generator S A) * S :=
  match objects !! it with
  | Some g =>
      match g s with
      | (Returns, s') => (Some StopIteration, <[it := finished]> objects, s')
      | (Throws e, s') => (Some (Raised e), <[it := finished]> objects, s')
      | (Gives a rest, s') => (Some (Item a), <[it := rest]> objects, s')
      end
  | None => (None, objects, s)
  end.

Fixpoint run_shared {S A} (objects : list (generator S A)) (s : S)
    (schedule : list nat) : list (nat * event A) :=
  match schedule with
  | [] => []
  | it :: later =>
      match next_shared objects s it with
      | (Some ev, objects', s') => (it, ev) :: run_shared objects' s' later
      | (None, objects', s') => run_shared objects' s' later
      end
  end.

(** A function with state returns what the function without state
    returns, and keeps the state [valid]. *)
Definition sound {S A} (valid : S → Prop) (m : stateful S A) (r : result A)
  : Prop :=
  ∀ s, valid s → (m s).1 = r ∧ valid (m s).2.

(** A generator over the shared state gives, resumed with any [valid]
    state, what the generator [g] gives, and so on for what follows. *)
Fixpoint agrees {S A} (valid : S → Prop) (g : gen A) (g' : generator S A)
  : Prop :=
  ∀ s, valid s →
    valid (g' s).2
    ∧ match g, (g' s).1 with
      | Done, Returns => True
      | Raise e, Throws e' => e = e'
      | Yield a rest, Gives a' rest' => a = a' ∧ agrees valid rest rest'
      | _, _ => False
      end.

(** ** Example pages *)

(** The scanner of the examples: the page is given as its markup. *)
Definition as_markup (doc : list markup) (from_encoding : option string)
  : result (list markup) := Ok doc.

(** A page that declares [<base href="c/">] and links to [d]. *)
Definition page_with_base : list markup :=
  [Element "html" []
     [Element "head" [] [Element "base" [("href", Some "c/")] []];
      Element "body" []
        [Element "a" [("href", Some "d")] [Data NavigableString "d"]]]].

(** An index page with two projects, an anchor without [href] and a
    comment. *)
Definition page_index : list markup :=
  [Element "body" []
     [Element "a" [("href", Some "http://x/a")] [Data NavigableString "PkgA"];
      Data Comment "not a link";
      Element "a" [("name", Some "top")] [Data NavigableString "skipped"];
      Element "A" [("HREF", Some "http://x/b")]
        [Data NavigableString "PkgB"]]].

(** A page whose second link cannot be resolved: [urljoin] raises
    [ValueError] on an unmatched bracket in the network location. *)
Definition page_bad_href : list markup :=
  [Element "a" [("href", Some "first")] [Data NavigableString "first"];
   Element "a" [("href", Some "http://[")] [Data NavigableString "second"];
   Element "a" [("href", Some "third")] [Data NavigableString "third"]].

(** A line feed, and the link text of the specification's example, before
    and after stripping. *)
Definition LF : string := String "010" "".
Definition foo_bar_raw : string := "  foo " +:+ LF +:+ " bar  ".
Definition foo_bar : string := "foo " +:+ LF +:+ " bar".

(** An anchor with attributes in mixed letter case; its text is spread
    over nested markup. *)
Definition anchor_attrs : markup :=
  Element "A"
    [("HREF", Some "pkg-1.0.tar.gz"); ("class", Some "a b");
     ("data-x", Some "1"); ("REL", Some " nofollow  noopener ")]
    [Data NavigableString "  foo";
     Element "b" [] [Data NavigableString (" " +:+ LF +:+ " bar")];
     Data NavigableString "  "].

Definition page_attrs : list markup := [anchor_attrs].

(** The anchor [<a href="x"><script>foo</script>bar</a>]. *)
Definition anchor_script : markup :=
  Element "a" [("href", Some "x")]
    [Element "script" [] [Data NavigableString "foo"];
     Data NavigableString "bar"].

Definition page_script : list markup := [anchor_script].

(** A parser that rejects every page, as [html.parser] rejects
    [<![x[y]]>]. *)
Definition rejecting (html : string) (from_encoding : option string)
  : result (list markup) :=
  Err (RaisedBy "bs4" "ParserRejectedMarkup").

(** A classifier for the examples: the package is the link itself. *)
Definition link_itself (link : Link) (project_hint : option string)
  : result Link := Ok link.

(** ** Notions used by the further properties *)

(** The run of [first] followed, when it returns, by the run of
    [second]; an exception of [first] ends the whole. *)
Fixpoint gen_then {A} (first second : gen A) : gen A :=
  match first with
  | Done => second
  | Raise e => Raise e
  | Yield a rest => Yield a (gen_then rest second)
  end.

(** The markup with every tag name and attribute name in lower case. *)
Fixpoint lower_names (m : markup) : markup :=
  match m with
  | Data cls data => Data cls data
  | Element name attrs children =>
      Element (Str.lower name) ((λ kv, (Str.lower kv.1, kv.2)) <$> attrs)
              (map lower_names children)
  end.

(** The scanner that hands on what [scan] finds with every name in
    lower case. *)
Definition in_lower_case {Html : Type}
    (scan : Html → option string → result (list markup))
    (html : Html) (from_encoding : option string) : result (list markup) :=
  match scan html from_encoding with
  | Ok doc => Ok (map lower_names doc)
  | Err e => Err e
  end.

(** The [Link] made of a triple. *)
Definition link_of (t : string * string * gmap string bs4.attr_value)
  : Link := mkLink t.1.1 t.1.2 t.2.

(** An anchor that holds a comment and a style sheet and nothing else. *)
Definition anchor_no_text : markup :=
  Element "a" [("href", Some "z")]
    [Data Comment "only a comment";
     Element "style" [] [Data NavigableString "a { }"]].

(** A page under [<base href="http://x/y/">] with a link whose [href]
    has no value and a link to [z] without text. *)
Definition page_empty_href : list markup :=
  [Element "base" [("href", Some "http://x/y/")] [];
   Element "a" [("href", None)] [Data NavigableString "here"];
   anchor_no_text].

(** A classifier for the examples that rejects the link named PkgB. *)
Definition picky (link : Link) (project_hint : option string)
  : result Link :=
  if String.eqb (text link) "PkgB" then Err (RaisedBy "from_link" "PkgB")
  else Ok link.

(** A string without square brackets. *)
Definition no_bracket (s : string) : Prop :=
  Str.contains "[" s = false ∧ Str.contains "]" s = false.

(** The index page followed by the page with the link that cannot be
    resolved; the index page inside one more element. *)
Definition page_two_parts : list markup := page_index ++ page_bad_href.
Definition page_wrapped : list markup :=
  [Element "DIV" [("id", Some "main")] page_index].

(** The page [page_with_base] with its [<base>] moved from the head to
    the end of the body, inside one more element. *)
Definition page_base_in_body : list markup :=
  [Element "html" []
     [Element "head" [] [];
      Element "body" []
        [Element "a" [("href", Some "d")] [Data NavigableString "d"];
         Element "div" []
           [Element "base" [("href", Some "c/")] []]]]].

(** * Properties *)

(** ** Strings *)

Section str_facts.

Local Ltac each_char c :=
  destruct c as [[] [] [] [] [] [] [] []]; vm_compute;
  try reflexivity; try discriminate.

Lemma lower_char_idem c : Str.lower_char (Str.lower_char c) = Str.lower_char c.
Proof. each_char c. Qed.

Lemma lower_idem s : Str.lower (Str.lower s) = Str.lower s.
Proof.
  induction s as [|c s IH]; simpl; [done|].
  by rewrite lower_char_idem, IH.
Qed.

Lemma str_app_cons c (a b : string) : String c a +:+ b = String c (a +:+ b).
Proof. reflexivity. Qed.

Lemma str_app_nil_l (b : string) : "" +:+ b = b.
Proof. reflexivity. Qed.

Lemma str_app_nil_r (a : string) : a +:+ "" = a.
Proof. induction a as [|x a IH]; [done|]. by rewrite str_app_cons, IH. Qed.

Lemma app_assoc_str (a b c : string) : (a +:+ b) +:+ c = a +:+ (b +:+ c).
Proof.
  induction a as [|x a IH]; [done|]. by rewrite !str_app_cons, IH.
Qed.

Lemma all_app p (a b : string) :
  Str.all p (a +:+ b) = Str.all p a && Str.all p b.
Proof.
  induction a as [|x a IH]; [done|].
  rewrite str_app_cons. simpl. rewrite IH. by rewrite andb_assoc.
Qed.

Lemma lstrip_by_split p s :
  ∃ l, s = l +:+ Str.lstrip_by p s ∧ Str.all p l = true.
Proof.
  induction s as [|c s (l & Hs & Hl)]; simpl.
  - by exists "".
  - destruct (p c) eqn:Hc.
    + exists (String c l). rewrite str_app_cons. simpl. rewrite Hc, Hl.
      split; [|done]. by rewrite <- Hs.
    + by exists "".
Qed.

Lemma lstrip_by_head p s :
  match Str.lstrip_by p s with
  | String c _ => p c = false
  | EmptyString => True
  end.
Proof.
  induction s as [|c s IH]; simpl; [done|].
  destruct (p c) eqn:Hc; [done|]. by rewrite Hc.
Qed.

Lemma rstrip_by_split p s :
  ∃ r, s = Str.rstrip_by p s +:+ r ∧ Str.all p r = true.
Proof.
  induction s as [|c s (r & Hs & Hr)]; simpl.
  - by exists "".
  - destruct (Str.rstrip_by p s) as [|d t] eqn:Ht.
    + rewrite str_app_nil_l in Hs. subst r.
      destruct (p c) eqn:Hc.
      * exists (String c s). rewrite str_app_nil_l. simpl. by rewrite Hc, Hr.
      * exists s. by rewrite str_app_cons, str_app_nil_l.
    + exists r. rewrite str_app_cons. by rewrite <- Hs.
Qed.

Lemma rstrip_by_last s :
  Doc.ends_with_space (Str.rstrip_by Str.isspace s) = false.
Proof.
  induction s as [|c s IH]; simpl; [done|].
  destruct (Str.rstrip_by Str.isspace s) as [|d t] eqn:Ht.
  - destruct (Str.isspace c) eqn:Hc; simpl; [done|]. by rewrite Hc.
  - simpl in *. done.
Qed.

(** Right-stripping keeps the first character of what remains. *)
Lemma rstrip_by_head p s :
  match Str.rstrip_by p s with
  | String c _ => ∃ s', s = String c s'
  | EmptyString => True
  end.
Proof.
  destruct s as [|c s]; simpl; [done|].
  destruct (Str.rstrip_by p s); [destruct (p c)|]; eauto.
Qed.

Lemma strip_stripped s : Doc.stripped s (Str.strip s).
Proof.
  unfold Doc.stripped, Str.strip, Str.strip_by.
  destruct (lstrip_by_split Str.isspace s) as (l & Hl & Hlw).
  destruct (rstrip_by_split Str.isspace (Str.lstrip_by Str.isspace s))
    as (r & Hr & Hrw).
  exists l, r. repeat split; try done.
  - by rewrite <- Hr.
  - pose proof (lstrip_by_head Str.isspace s) as Hh.
    pose proof (rstrip_by_head Str.isspace (Str.lstrip_by Str.isspace s)) as Hk.
    destruct (Str.rstrip_by Str.isspace (Str.lstrip_by Str.isspace s))
      as [|c t]; simpl; [done|].
    destruct Hk as (s' & Hk). by rewrite Hk in Hh.
  - apply rstrip_by_last.
Qed.

End str_facts.

(** [findall_nonspace] returns the tokens of its argument. *)
Lemma findall_nonspace_tokens s : Doc.tokens s (Str.findall_nonspace s).
Proof.
  induction s as [|c s IH]; [by constructor|].
  simpl. destruct (Str.isspace c) eqn:Hc.
  - inversion IH as [s0 Hall|ws tok rest toks Hws Htok Hns Hrest Htoks]; subst.
    + constructor. simpl. by rewrite Hc.
    + rewrite <- str_app_cons. constructor; try done. simpl. by rewrite Hc, Hws.
  - assert (Str.all (λ x, negb (Str.isspace x)) (String c "") = true) as Hone.
    { simpl. by rewrite Hc. }
    destruct s as [|d s].
    + apply (Doc.tokens_cons "" (String c "") "" []); auto; by constructor.
    + destruct (Str.isspace d) eqn:Hd.
      * apply (Doc.tokens_cons "" (String c "") (String d s)); auto; by left.
      * inversion IH as [s0 Hall|ws tok rest toks Hws Htok Hns Hrest Htoks Heq].
        { simpl in Hall. by rewrite Hd in Hall. }
        destruct ws as [|w ws].
        -- apply (Doc.tokens_cons "" (String c tok) rest toks); auto;
             simpl; by rewrite Hc, Hns.
        -- rewrite str_app_cons in Heq. injection Heq as -> _.
           simpl in Hws. by rewrite Hd in Hws.
Qed.

(** ** URL resolution *)

(** The only exception [urljoin] raises is the [ValueError] of
    [urlsplit]. *)
Lemma urlsplit_parse_raises url scheme e :
  urllib.urlsplit_parse url scheme = Err e →
  e = ValueError "Invalid IPv6 URL".
Proof.
  unfold urllib.urlsplit_parse. intros H.
  repeat (case_match; simplify_eq/=); done.
Qed.

Lemma urlsplit_raises url scheme e :
  urllib.urlsplit url scheme = Err e → e = ValueError "Invalid IPv6 URL".
Proof. apply urlsplit_parse_raises. Qed.

Lemma urlparse_raises url scheme e :
  urllib.urlparse url scheme = Err e → e = ValueError "Invalid IPv6 URL".
Proof.
  unfold urllib.urlparse.
  destruct (urllib.urlsplit url scheme) as [r|e'] eqn:Hsplit; simpl; [done|].
  intros [= <-]. by eapply urlsplit_raises.
Qed.

Lemma urljoin_raises base url e :
  urllib.urljoin base url = Err e → e = ValueError "Invalid IPv6 URL".
Proof.
  unfold urllib.urljoin.
  repeat (case_match; try done).
  all: destruct (urllib.urlparse base "") as [b|e1] eqn:Hb; simpl;
    [|intros [= <-]; by eapply urlparse_raises].
  all: destruct (urllib.urlparse url (urllib.scheme b)) as [u|e2] eqn:Hu;
    simpl; [done|intros [= <-]; by eapply urlparse_raises].
Qed.

(** ** The tree and the document *)

Section tree_facts.

Lemma markup_forall_ind (P : markup → Prop) :
  (∀ cls s, P (Data cls s)) →
  (∀ name attrs children,
     Forall P children → P (Element name attrs children)) →
  ∀ m, P m.
Proof.
  intros HD HE. fix IH 1. intros [cls s|name attrs children]; [apply HD|].
  apply HE. induction children as [|c cs IHcs]; constructor;
    [apply IH | apply IHcs].
Qed.

(** The dictionary built by [handle_starttag] holds, under a key, the
    value written last for it. *)
Lemma attr_dict_lookup attrs key :
  bs4.attr_dict ((λ kv, (Str.lower kv.1, kv.2)) <$> attrs) !! key
  = Doc.written_value attrs key.
Proof.
  unfold bs4.attr_dict.
  assert (∀ d : gmap string string,
    fold_left (λ d kv, <[kv.1 := default "" kv.2]> d)
      ((λ kv, (Str.lower kv.1, kv.2)) <$> attrs) d !! key
    = match Doc.written_value attrs key with
      | Some later => Some later
      | None => d !! key
      end) as Hgen.
  { induction attrs as [|[k v] attrs IH]; intros d; simpl; [done|].
    rewrite IH. destruct (Doc.written_value attrs key); [done|].
    destruct (String.eqb_spec (Str.lower k) key) as [->|Hne].
    - by rewrite lookup_insert_eq.
    - by rewrite lookup_insert_ne. }
  rewrite Hgen. by destruct (Doc.written_value attrs key).
Qed.

(** [Tag.attrs] of the tag built for a start tag, key by key. *)
Lemma start_tag_attrs_lookup name attrs key :
  bs4.start_tag_attrs name attrs !! key
  = (λ v, if bs4.is_cdata_list (Str.lower name) key
          then bs4.AList (Str.findall_nonspace v) else bs4.AStr v)
    <$> Doc.written_value attrs key.
Proof.
  unfold bs4.start_tag_attrs, bs4.parse_starttag,
    bs4._replace_cdata_list_attribute_values.
  rewrite map_lookup_imap, attr_dict_lookup.
  by destruct (Doc.written_value attrs key).
Qed.

(** No tag has [href] among its multi-valued attributes. *)
Lemma table_get_not_in attr key table :
  Forall (λ kv, attr ∉ kv.2) table → attr ∉ bs4.table_get key table.
Proof.
  induction 1 as [|[k v] table Hv _ IH]; simpl; [apply not_elem_of_nil|].
  by destruct (String.eqb k key).
Qed.

Lemma href_not_cdata_list tag : bs4.is_cdata_list tag "href" = false.
Proof.
  assert (Forall (λ kv : string * list string, "href" ∉ kv.2)
            bs4.cdata_list_attributes) as Htable.
  { apply (bool_decide_unpack _). by vm_compute. }
  unfold bs4.is_cdata_list.
  rewrite !bool_decide_eq_false_2; [done|by apply table_get_not_in..].
Qed.

Lemma search_tag_build name attr p m :
  bs4.search_tag name attr (bs4.build p m) ↔ Doc.carries name attr m.
Proof.
  destruct m as [cls s|n a ch]; simpl; [done|].
  rewrite start_tag_attrs_lookup.
  rewrite fmap_is_Some. done.
Qed.

Lemma filter_fmap {A B} (f : A → B) (P : B → Prop) `{!∀ y, Decision (P y)}
    (l : list A) :
  filter P (f <$> l) = f <$> filter (λ x, P (f x)) l.
Proof.
  induction l as [|x l IH]; [done|]. rewrite fmap_cons, !filter_cons.
  case_decide; by rewrite IH.
Qed.

(** The elements with their places are the elements. *)
Lemma nested_elements ancestors m :
  (Doc.nested ancestors m).*2 = Doc.elements m.
Proof.
  revert ancestors.
  induction m as [cls s|n a ch IH] using markup_forall_ind; intros ancestors;
    [done|].
  assert (∀ anc, (ch ≫= Doc.nested anc).*2 = ch ≫= Doc.elements) as Hch.
  { intros anc. induction IH as [|c cs Hc _ IHcs]; [done|].
    by rewrite !bind_cons, fmap_app, Hc, IHcs. }
  simpl. f_equal. apply Hch.
Qed.

Lemma placed_document_order doc :
  (Doc.placed doc).*2 = Doc.document_order doc.
Proof.
  unfold Doc.placed, Doc.document_order.
  induction doc as [|m doc IH]; [done|].
  by rewrite !bind_cons, fmap_app, nested_elements, IH.
Qed.

Lemma carrying_placed name attr doc :
  filter (Doc.carries name attr) (Doc.document_order doc)
  = (filter (λ x, Doc.carries name attr x.2) (Doc.placed doc)).*2.
Proof. by rewrite <- placed_document_order, filter_fmap. Qed.

Lemma anchors_placed doc : Doc.anchors doc = (Doc.placed_anchors doc).*2.
Proof. apply carrying_placed. Qed.

Lemma filter_build name attr ancestors m :
  filter (bs4.search_tag name attr)
    (bs4.build ancestors m :: bs4.descendants (bs4.build ancestors m))
  = (λ x, Doc.tag_of x.1 x.2)
      <$> filter (λ x, Doc.carries name attr x.2) (Doc.nested ancestors m).
Proof.
  revert ancestors.
  induction m as [cls s|n a ch IH] using markup_forall_ind; intros ancestors.
  - rewrite filter_cons_False by (simpl; tauto). done.
  - change (Doc.nested ancestors (Element n a ch))
      with ((ancestors, Element n a ch)
              :: (ch ≫= Doc.nested (Str.lower n :: ancestors))).
    assert (filter (bs4.search_tag name attr)
              (map (bs4.build (Str.lower n :: ancestors)) ch
                 ≫= λ c, c :: bs4.descendants c)
            = (λ x, Doc.tag_of x.1 x.2)
                <$> filter (λ x, Doc.carries name attr x.2)
                      (ch ≫= Doc.nested (Str.lower n :: ancestors))) as Hch.
    { generalize (Str.lower n :: ancestors). intros anc.
      induction IH as [|c cs Hc _ IHcs]; [done|].
      rewrite map_cons, !bind_cons, !filter_app, fmap_app.
      by rewrite Hc, IHcs. }
    change (bs4.descendants (bs4.build ancestors (Element n a ch)))
      with (map (bs4.build (Str.lower n :: ancestors)) ch
              ≫= λ c, c :: bs4.descendants c).
    destruct (decide (Doc.carries name attr (Element n a ch))) as [Hy|Hn].
    + rewrite filter_cons_True by (by apply search_tag_build).
      rewrite (filter_cons_True _ (ancestors, Element n a ch)) by done.
      rewrite fmap_cons. f_equal. apply Hch.
    + rewrite filter_cons_False by (by rewrite search_tag_build).
      rewrite (filter_cons_False _ (ancestors, Element n a ch)) by done.
      apply Hch.
Qed.

(** [find_all] on the tree of a document returns, in document order,
    the tags of the elements of the document that carry the attribute. *)
Lemma find_all_placed name attr doc :
  bs4.find_all (bs4.soup_of doc) name attr
  = (λ x, Doc.tag_of x.1 x.2)
      <$> filter (λ x, Doc.carries name attr x.2) (Doc.placed doc).
Proof.
  unfold bs4.find_all, bs4.soup_of, Doc.placed. simpl.
  induction doc as [|m doc IH]; [done|].
  rewrite map_cons, !bind_cons, !filter_app, fmap_app.
  by rewrite filter_build, IH.
Qed.

Lemma find_all_soup name attr doc :
  Forall2 Doc.built
    (filter (Doc.carries name attr) (Doc.document_order doc))
    (bs4.find_all (bs4.soup_of doc) name attr).
Proof.
  rewrite find_all_placed, carrying_placed.
  apply Forall2_fmap, Forall_Forall2_diag, Forall_forall.
  intros [ancestors m] _. by exists ancestors.
Qed.

End tree_facts.

(** ** The strings of a tag *)

Lemma containers_get_apart name :
  match bs4.containers_get name bs4.string_containers with
  | Some c =>
      name ∈ Doc.set_apart ∧ Doc.not_text c = false
      ∧ c ∉ [bs4.Asked NavigableString; bs4.Asked CData]
  | None => name ∉ Doc.set_apart
  end.
Proof.
  unfold bs4.string_containers, Doc.set_apart. cbn [bs4.containers_get].
  repeat match goal with
    | |- context [String.eqb ?k name] =>
        destruct (String.eqb_spec k name) as [<-|?];
        [split_and!;
           [apply (bool_decide_unpack _); vm_compute; reflexivity | done
           | rewrite !not_elem_of_cons; split_and!; try done;
             apply not_elem_of_nil]|]
    end.
  rewrite !not_elem_of_cons. split_and!; try done. apply not_elem_of_nil.
Qed.

Lemma innermost_container_apart stack :
  match bs4.innermost_container stack with
  | Some c =>
      Doc.apart stack = true ∧ Doc.not_text c = false
      ∧ c ∉ [bs4.Asked NavigableString; bs4.Asked CData]
  | None => Doc.apart stack = false
  end.
Proof.
  induction stack as [|name stack IH]; [done|].
  cbn [bs4.innermost_container Doc.apart existsb].
  pose proof (containers_get_apart name) as Hname.
  destruct (bs4.containers_get name bs4.string_containers) as [c|].
  - destruct Hname as (Hin & ? & ?). by rewrite bool_decide_eq_true_2.
  - rewrite bool_decide_eq_false_2 by done. apply IH.
Qed.

(** The strings that [Tag.strings] keeps by their class are the text
    nodes that lie in no element that is set apart. *)
Lemma default_strings_link_text stack m :
  omap (λ d, match d with
             | bs4.Text cls s =>
                 if bool_decide
                      (cls ∈ [bs4.Asked NavigableString; bs4.Asked CData])
                 then Some s else None
             | bs4.Tag _ _ _ => None
             end)
    (bs4.build stack m :: bs4.descendants (bs4.build stack m))
  = Doc.link_text (Doc.apart stack) (bs4.build stack m).
Proof.
  set (f := λ d, match d with
                 | bs4.Text cls s =>
                     if bool_decide
                          (cls ∈ [bs4.Asked NavigableString; bs4.Asked CData])
                     then Some s else None
                 | bs4.Tag _ _ _ => None
                 end).
  revert stack.
  induction m as [cls s|n a ch IH] using markup_forall_ind; intros stack.
  - simpl. pose proof (innermost_container_apart stack) as Hstack.
    destruct cls; simpl; try done.
    destruct (bs4.innermost_container stack) as [c|]; simpl.
    + destruct Hstack as (-> & -> & Hc).
      rewrite bool_decide_eq_false_2 by done.
      rewrite bool_decide_eq_false_2; [done|].
      intros ->. apply Hc. rewrite !elem_of_cons. by right; left.
    + by rewrite Hstack.
  - assert (∀ anc,
      omap f (map (bs4.build anc) ch ≫= λ c, c :: bs4.descendants c)
      = map (bs4.build anc) ch ≫= Doc.link_text (Doc.apart anc)) as Hch.
    { intros anc. induction IH as [|c cs Hc _ IHcs]; [done|].
      rewrite map_cons, !bind_cons, omap_app. by rewrite Hc, IHcs. }
    change (omap f (map (bs4.build (Str.lower n :: stack)) ch
                      ≫= λ c, c :: bs4.descendants c)
            = map (bs4.build (Str.lower n :: stack)) ch
                ≫= Doc.link_text
                     (Doc.apart stack
                      || bool_decide (Str.lower n ∈ Doc.set_apart))).
    rewrite Hch. by rewrite orb_comm.
Qed.

Lemma strings_link_text attr ancestors m :
  Doc.carries "a" attr m →
  bs4.strings (Doc.tag_of ancestors m)
  = Doc.link_text (Doc.apart ancestors) (Doc.tag_of ancestors m).
Proof.
  intros Hcar. rewrite <- default_strings_link_text.
  destruct m as [cls s|n a ch]; [done|]. destruct Hcar as [Hn _].
  unfold bs4.strings, Doc.tag_of. simpl. by rewrite Hn.
Qed.

(** ** Generators *)

Section gen_facts.

Context {A B : Type}.
Implicit Types (xs : list A) (body : A → result B).

Lemma for_yield_lookup xs body i x b :
  xs !! i = Some x → yielded (for_yield xs body) !! i = Some b →
  body x = Ok b.
Proof.
  revert i. induction xs as [|y xs IH]; intros i Hx Hb; [done|].
  simpl in Hb. destruct (body y) as [b'|e] eqn:Hy; [|done].
  destruct i as [|i]; simpl in *.
  - by simplify_eq.
  - by eapply IH.
Qed.

Lemma for_yield_length xs body :
  length (yielded (for_yield xs body)) ≤ length xs.
Proof.
  induction xs as [|y xs IH]; simpl; [done|].
  destruct (body y); simpl; lia.
Qed.

Lemma for_yield_complete xs body :
  raised (for_yield xs body) = None →
  length (yielded (for_yield xs body)) = length xs.
Proof.
  induction xs as [|y xs IH]; simpl; [done|].
  destruct (body y); simpl; [|done]. intros ?. f_equal. auto.
Qed.

Lemma for_yield_raised xs body e :
  raised (for_yield xs body) = Some e →
  ∃ x, xs !! length (yielded (for_yield xs body)) = Some x ∧ body x = Err e.
Proof.
  induction xs as [|y xs IH]; simpl; [done|].
  destruct (body y) as [b|e'] eqn:Hy; simpl.
  - apply IH.
  - intros [= ->]. eauto.
Qed.

End gen_facts.

(** ** [parse_links] *)

Section parse_links_facts.

Context {Html : Type} (scan : Html → option string → result (list markup)).

(** The [href] item of a tag built from an element that carries one is
    the raw [href], a [str]. *)
Lemma getitem_href name p m :
  Doc.carries name "href" m →
  bs4.getitem (bs4.build p m) "href" ≫= as_str = Ok (Doc.href m).
Proof.
  destruct m as [cls s|n a ch]; simpl; [done|].
  intros [_ [v Hv]]. rewrite start_tag_attrs_lookup, Hv. simpl.
  by rewrite href_not_cdata_list.
Qed.

Lemma anchors_carry doc i m :
  Doc.anchors doc !! i = Some m → Doc.carries "a" "href" m.
Proof.
  intros Hm. apply list_elem_of_lookup_2 in Hm.
  by apply list_elem_of_filter in Hm as [? _].
Qed.

Lemma placed_anchors_carry doc i ancestors m :
  Doc.placed_anchors doc !! i = Some (ancestors, m) →
  Doc.carries "a" "href" m.
Proof.
  intros Hm. apply list_elem_of_lookup_2 in Hm.
  by apply list_elem_of_filter in Hm as [? _].
Qed.

(** Every anchor has its place. *)
Lemma anchors_lookup_placed doc i m :
  Doc.anchors doc !! i = Some m →
  ∃ ancestors, Doc.placed_anchors doc !! i = Some (ancestors, m).
Proof.
  rewrite anchors_placed.
  intros ([ancestors m'] & -> & Hx)%list_lookup_fmap_Some. by exists ancestors.
Qed.

Lemma find_all_anchors doc :
  bs4.find_all (bs4.soup_of doc) "a" "href"
  = (λ x, Doc.tag_of x.1 x.2) <$> Doc.placed_anchors doc.
Proof. apply find_all_placed. Qed.

Lemma find_all_anchors_length doc :
  length (bs4.find_all (bs4.soup_of doc) "a" "href")
  = length (Doc.anchors doc).
Proof. by rewrite find_all_anchors, anchors_placed, !length_fmap. Qed.

(** A page that the parser rejects: the exception leaves at the first
    [next]. *)
Lemma parse_links_rejected html base_url from_encoding e :
  scan html from_encoding = Err e →
  parse_links scan html base_url from_encoding = Raise e.
Proof. intros Hscan. unfold parse_links, BeautifulSoup. by rewrite Hscan. Qed.

(** The triple at position [i] is made from the anchor at position
    [i]. *)
Lemma parse_links_lookup_placed html base_url from_encoding doc i
    ancestors m t :
  scan html from_encoding = Ok doc →
  Doc.placed_anchors doc !! i = Some (ancestors, m) →
  yielded (parse_links scan html base_url from_encoding) !! i = Some t →
  ∃ base,
    effective_base_url (bs4.soup_of doc) base_url = Ok base
    ∧ basejoin base (Doc.href m) = Ok t.1.2
    ∧ t.1.1 = Str.strip (Str.join0 (bs4.strings (Doc.tag_of ancestors m)))
    ∧ t.2 = Doc.attributes m.
Proof.
  intros Hscan Hm Ht. unfold parse_links, BeautifulSoup in Ht.
  rewrite Hscan in Ht.
  destruct (effective_base_url _ base_url) as [base|e] eqn:Hbase; [|done].
  assert (bs4.find_all (bs4.soup_of doc) "a" "href" !! i
          = Some (Doc.tag_of ancestors m)) as Hlink.
  { by rewrite find_all_anchors, list_lookup_fmap, Hm. }
  pose proof (for_yield_lookup _ _ _ _ _ Hlink Ht) as Hbody.
  pose proof (placed_anchors_carry _ _ _ _ Hm) as Hcar.
  cbv beta in Hbody.
  rewrite (getitem_href "a" ancestors m Hcar
             : bs4.getitem (Doc.tag_of ancestors m) "href" ≫= as_str = _)
    in Hbody.
  simpl in Hbody.
  destruct (basejoin base (Doc.href m)) as [u|e] eqn:Hu; [|done].
  simpl in Hbody. injection Hbody as <-.
  exists base. split_and!; try done. by destruct m.
Qed.

Lemma parse_links_lookup html base_url from_encoding doc i m t :
  scan html from_encoding = Ok doc →
  Doc.anchors doc !! i = Some m →
  yielded (parse_links scan html base_url from_encoding) !! i = Some t →
  ∃ base,
    effective_base_url (bs4.soup_of doc) base_url = Ok base
    ∧ basejoin base (Doc.href m) = Ok t.1.2
    ∧ t.2 = Doc.attributes m.
Proof.
  intros Hscan [ancestors Hm]%anchors_lookup_placed Ht.
  destruct (parse_links_lookup_placed _ _ _ _ _ _ _ _ Hscan Hm Ht)
    as (base & ? & ? & _ & ?).
  by exists base.
Qed.

Lemma parse_links_length_le html base_url from_encoding doc :
  scan html from_encoding = Ok doc →
  length (yielded (parse_links scan html base_url from_encoding))
  ≤ length (Doc.anchors doc).
Proof.
  intros Hscan. unfold parse_links, BeautifulSoup. rewrite Hscan.
  destruct (effective_base_url _ base_url); simpl; [|lia].
  rewrite <- find_all_anchors_length. apply for_yield_length.
Qed.

(** The triples are made, in order, from a leading segment of the
    anchors. *)
Lemma parse_links_prefix html base_url from_encoding doc :
  scan html from_encoding = Ok doc →
  Forall2 (λ m t, t.2 = Doc.attributes m)
    (take (length (yielded (parse_links scan html base_url from_encoding)))
          (Doc.anchors doc))
    (yielded (parse_links scan html base_url from_encoding)).
Proof.
  intros Hscan.
  pose proof (parse_links_length_le html base_url from_encoding doc Hscan).
  apply Forall2_same_length_lookup_2.
  { rewrite length_take. lia. }
  intros i m t Hm Ht. apply lookup_take_Some in Hm as [Hm _].
  by destruct (parse_links_lookup _ _ _ _ _ _ _ Hscan Hm Ht)
    as (base & _ & _ & ->).
Qed.

(** When nothing is raised there are as many triples as anchors. *)
Lemma parse_links_complete html base_url from_encoding doc :
  scan html from_encoding = Ok doc →
  raised (parse_links scan html base_url from_encoding) = None →
  length (yielded (parse_links scan html base_url from_encoding))
  = length (Doc.anchors doc).
Proof.
  intros Hscan. unfold parse_links, BeautifulSoup. rewrite Hscan.
  destruct (effective_base_url _ base_url); [|done]. intros Hnone.
  rewrite for_yield_complete by done. apply find_all_anchors_length.
Qed.

(** The first [<base>] with an [href] is what [find] returns. *)
Lemma find_base doc :
  match bs4.find (bs4.soup_of doc) "base" "href", Doc.first_base doc with
  | Some tag, Some b => Doc.built b tag ∧ Doc.carries "base" "href" b
  | None, None => True
  | _, _ => False
  end.
Proof.
  unfold bs4.find, Doc.first_base.
  pose proof (find_all_soup "base" "href" doc) as Hall.
  destruct (filter _ (Doc.document_order doc)) as [|b bs] eqn:Hbs;
    inversion Hall as [|? tag ? tags Hb _ Heq Htags]; simpl; [done|].
  split; [done|].
  assert (b ∈ filter (Doc.carries "base" "href") (Doc.document_order doc))
    as Hin by (rewrite Hbs; left).
  by apply list_elem_of_filter in Hin as [? _].
Qed.

Lemma effective_base_url_eq doc base_url :
  effective_base_url (bs4.soup_of doc) base_url
  = match Doc.first_base doc, base_url with
    | Some b, None => Ok (Some (Doc.href b))
    | Some b, Some supplied =>
        joined ← urllib.urljoin supplied (Doc.href b); Ok (Some joined)
    | None, _ => Ok base_url
    end.
Proof.
  unfold effective_base_url.
  pose proof (find_base doc) as Hfind.
  destruct (bs4.find _ "base" "href") as [tag|];
    destruct (Doc.first_base _) as [b|]; try done.
  destruct Hfind as [[p ->] Hcar]. unfold Doc.tag_of.
  rewrite (getitem_href "base") by done.
  by destruct base_url.
Qed.

(** Where an exception of [parse_links] on an accepted page comes from:
    the [urljoin] of line 77, before anything is yielded, or the
    [urljoin] of line 84 on the anchor that follows those already
    yielded. *)
Lemma parse_links_failure html base_url from_encoding doc e :
  scan html from_encoding = Ok doc →
  raised (parse_links scan html base_url from_encoding) = Some e →
  (yielded (parse_links scan html base_url from_encoding) = []
   ∧ ∃ b supplied, Doc.first_base doc = Some b ∧ base_url = Some supplied
       ∧ urllib.urljoin supplied (Doc.href b) = Err e)
  ∨ (∃ base m,
       effective_base_url (bs4.soup_of doc) base_url = Ok (Some base)
       ∧ Doc.anchors doc
           !! length (yielded (parse_links scan html base_url from_encoding))
         = Some m
       ∧ urllib.urljoin base (Doc.href m) = Err e).
Proof.
  intros Hscan. unfold parse_links, BeautifulSoup. rewrite Hscan.
  destruct (effective_base_url _ base_url) as [base|e'] eqn:Hbase.
  - rewrite find_all_anchors.
    intros (link & Hlink & Hbody)%for_yield_raised. right.
    apply list_lookup_fmap_Some in Hlink as ([ancestors m] & -> & Hm).
    pose proof (placed_anchors_carry _ _ _ _ Hm) as Hcar.
    cbn [fst snd] in Hbody.
    rewrite (getitem_href "a" ancestors m Hcar
               : bs4.getitem (Doc.tag_of ancestors m) "href" ≫= as_str = _)
      in Hbody.
    simpl in Hbody. destruct base as [b|]; simpl in Hbody; [|done].
    exists b, m. split_and!; [done| |].
    + by rewrite anchors_placed, list_lookup_fmap, Hm.
    + destruct (urllib.urljoin b (Doc.href m)); [done|]. simpl in Hbody.
      by injection Hbody as ->.
  - simpl. intros [= <-]. left. split; [done|].
    rewrite effective_base_url_eq in Hbase.
    destruct (Doc.first_base _) as [b|], base_url as [supplied|]; try done.
    exists b, supplied. split_and!; [done..|].
    destruct (urllib.urljoin supplied (Doc.href b)); [done|].
    simpl in Hbase. by injection Hbase as ->.
Qed.

End parse_links_facts.

(** ** The specified properties of [parse_links] *)

Section parse_links_properties.

Context {Html : Type} (scan : Html → option string → result (list markup)).

(** C1, amended. A page that the parser rejects yields nothing: the
    parser's exception leaves [parse_links].  On any other page the
    triples that [parse_links] yields are those of a leading segment of
    the anchors that carry an [href], one triple per anchor and in
    document order.  When no exception is raised (every URL resolves) the
    segment is the whole list, so that there is exactly one triple per
    such anchor.  When an exception is raised it is that of [urljoin],
    either on the [href] of the [<base>], and then nothing is yielded, or
    on the [href] of the first anchor that has no triple: the triples of
    all the anchors before that one have been yielded.  Anchors without
    [href] are not in the list, and a document with no anchor element
    yields nothing. *)
Theorem parse_links_one_triple_per_anchor html base_url from_encoding :
  let links := parse_links scan html base_url from_encoding in
  match scan html from_encoding with
  | Err e => links = Raise e
  | Ok doc =>
      Forall2 (λ m t, t.2 = Doc.attributes m)
        (take (length (yielded links)) (Doc.anchors doc)) (yielded links)
      ∧ match raised links with
        | None =>
            Forall2 (λ m t, t.2 = Doc.attributes m)
              (Doc.anchors doc) (yielded links)
        | Some e =>
            (yielded links = []
             ∧ ∃ b supplied,
                 Doc.first_base doc = Some b ∧ base_url = Some supplied
                 ∧ urllib.urljoin supplied (Doc.href b) = Err e)
            ∨ (∃ base m,
                 effective_base_url (bs4.soup_of doc) base_url
                 = Ok (Some base)
                 ∧ Doc.anchors doc !! length (yielded links) = Some m
                 ∧ urllib.urljoin base (Doc.href m) = Err e)
        end
      ∧ ((∀ m, m ∈ Doc.document_order doc → ¬ Doc.named "a" m) →
         yielded links = [])
  end.
Proof.
  intros links.
  destruct (scan html from_encoding) as [doc|e] eqn:Hscan;
    [|by apply parse_links_rejected].
  pose proof (parse_links_prefix scan html base_url from_encoding doc Hscan)
    as Hprefix. fold links in Hprefix.
  split_and!; [done| |].
  - destruct (raised links) as [e|] eqn:Hraised.
    + by apply parse_links_failure.
    + pose proof (parse_links_complete scan _ _ _ _ Hscan Hraised) as Hlen.
      fold links in Hlen. by rewrite Hlen, firstn_all in Hprefix.
  - intros Hno.
    assert (Doc.anchors doc = []) as Hnil.
    { destruct (Doc.anchors doc) as [|m ms] eqn:Hms; [done|].
      assert (m ∈ Doc.anchors doc) as Hin by (rewrite Hms; left).
      apply list_elem_of_filter in Hin as [Hc Hm].
      destruct (Hno m Hm). destruct m; [done|]. by destruct Hc. }
    rewrite Hnil, take_nil in Hprefix. by apply Forall2_nil_inv_l in Hprefix.
Qed.

(** C2. The effective base URL is the [href] of the first [<base>] that
    carries one when no base URL is supplied, that [href] resolved against
    the supplied base URL by [urljoin] when one is supplied, and the
    supplied base URL (possibly none) when the page has no such [<base>].
    With the base URL [http://a/b/] and [<base href="c/">] the effective
    base is [http://a/b/c/], and the link [d] resolves to
    [http://a/b/c/d]. *)
Theorem effective_base_url_cases html base_url from_encoding doc soup :
  scan html from_encoding = Ok doc →
  BeautifulSoup scan html from_encoding = Ok soup →
  effective_base_url soup base_url
  = match Doc.first_base doc, base_url with
    | Some b, None => Ok (Some (Doc.href b))
    | Some b, Some supplied =>
        joined ← urllib.urljoin supplied (Doc.href b); Ok (Some joined)
    | None, _ => Ok base_url
    end
  ∧ urllib.urljoin "http://a/b/" "c/" = Ok "http://a/b/c/"
  ∧ urllib.urljoin "http://a/b/c/" "d" = Ok "http://a/b/c/d"
  ∧ effective_base_url (bs4.soup_of page_with_base) (Some "http://a/b/")
    = Ok (Some "http://a/b/c/")
  ∧ (λ t, t.1.2) <$>
      yielded (parse_links as_markup page_with_base (Some "http://a/b/") None)
    = ["http://a/b/c/d"].
Proof.
  intros Hscan Hsoup. unfold BeautifulSoup in Hsoup. rewrite Hscan in Hsoup.
  injection Hsoup as <-.
  split; [apply effective_base_url_eq | by vm_compute].
Qed.

(** C3. The URL of a yielded triple is the raw [href] of its anchor
    resolved against the effective base URL when there is one, and the
    raw [href] itself when there is none, which is the case when no base
    URL is supplied and the page has no [<base>] with an [href]. *)
Theorem parse_links_url html base_url from_encoding doc i m t :
  scan html from_encoding = Ok doc →
  Doc.anchors doc !! i = Some m →
  yielded (parse_links scan html base_url from_encoding) !! i = Some t →
  match effective_base_url (bs4.soup_of doc) base_url with
  | Ok (Some base) => urllib.urljoin base (Doc.href m) = Ok t.1.2
  | Ok None => t.1.2 = Doc.href m
  | Err _ => False
  end
  ∧ (base_url = None → Doc.first_base doc = None → t.1.2 = Doc.href m).
Proof.
  intros Hscan Hm Ht.
  destruct (parse_links_lookup scan _ _ _ _ _ _ _ Hscan Hm Ht)
    as (base & Hbase & Hjoin & _).
  assert (match base with
          | Some b => urllib.urljoin b (Doc.href m) = Ok t.1.2
          | None => t.1.2 = Doc.href m
          end) as Hurl.
  { destruct base; simpl in Hjoin; [done|]. by injection Hjoin. }
  split.
  - by rewrite Hbase.
  - intros -> Hnone.
    pose proof (effective_base_url_eq doc None) as Hc.
    rewrite Hnone, Hbase in Hc. by injection Hc as ->.
Qed.

Lemma written_value_Some_inv attrs key v :
  Doc.written_value attrs key = Some v →
  ∃ k v', (k, v') ∈ attrs ∧ Str.lower k = key ∧ v = default "" v'.
Proof.
  induction attrs as [|[k v'] attrs IH]; simpl; [done|].
  destruct (Doc.written_value attrs key) as [later|].
  - intros [= ->]. destruct IH as (k0 & v0 & Hin & Hk & Hv); [done|].
    exists k0, v0. split; [by right|done].
  - destruct (String.eqb_spec (Str.lower k) key) as [Hk|]; [|done].
    intros [= <-]. exists k, v'. split; [by left|done].
Qed.

Lemma written_value_is_Some attrs k v :
  (k, v) ∈ attrs → is_Some (Doc.written_value attrs (Str.lower k)).
Proof.
  induction attrs as [|[k' v'] attrs IH]; [by intros ?%elem_of_nil|].
  intros Hin. simpl.
  destruct (Doc.written_value attrs (Str.lower k)) as [later|] eqn:Hlater;
    [done|].
  apply elem_of_cons in Hin as [[= <- <-]|Hin].
  - by rewrite String.eqb_refl.
  - apply IH in Hin. by destruct Hin.
Qed.

(** The attributes of an anchor, key by key. *)
Lemma anchor_attributes_lookup m attr key :
  Doc.carries "a" attr m →
  Doc.attributes m !! key
  = (λ v, if bs4.is_cdata_list "a" key
          then bs4.AList (Str.findall_nonspace v) else bs4.AStr v)
    <$> Doc.written_value (Doc.written m) key.
Proof.
  destruct m as [cls s|n a ch]; simpl; [done|]. intros [Hn _].
  by rewrite start_tag_attrs_lookup, Hn.
Qed.

Lemma cdata_list_on_anchor key :
  bs4.is_cdata_list "a" key = true
  ↔ key ∈ ["class"; "accesskey"; "dropzone"; "rel"; "rev"].
Proof.
  unfold bs4.is_cdata_list.
  change (bs4.table_get "*" _) with ["class"; "accesskey"; "dropzone"].
  change (bs4.table_get (Str.lower "a") _) with ["rel"; "rev"].
  rewrite orb_true_iff, !bool_decide_eq_true.
  change ["class"; "accesskey"; "dropzone"; "rel"; "rev"]
    with (["class"; "accesskey"; "dropzone"] ++ ["rel"; "rev"]).
  by rewrite elem_of_app.
Qed.

(** C4. The attributes of a yielded triple hold every attribute of the
    anchor under its lower-cased name and nothing else; [class] is held
    as the list of its tokens in the order written, an attribute that is
    not multi-valued (such as [data-x]) as the string written, and the
    raw [href] is found under the key [href].  For
    [<A HREF=... class="a b" data-x="1">] the values are ["a"; "b"] under
    [class] and "1" under [data-x]. *)
Theorem parse_links_attributes html base_url from_encoding doc i m t :
  scan html from_encoding = Ok doc →
  Doc.anchors doc !! i = Some m →
  yielded (parse_links scan html base_url from_encoding) !! i = Some t →
  (∀ k v, (k, v) ∈ Doc.written m → is_Some (t.2 !! Str.lower k))
  ∧ (∀ key, is_Some (t.2 !! key) →
       Str.lower key = key ∧ ∃ k v, (k, v) ∈ Doc.written m ∧ key = Str.lower k)
  ∧ (∀ v, Doc.written_value (Doc.written m) "class" = Some v →
       ∃ toks, Doc.tokens v toks ∧ t.2 !! "class" = Some (bs4.AList toks))
  ∧ (∀ key v, Doc.written_value (Doc.written m) key = Some v →
       bs4.is_cdata_list "a" key = false → t.2 !! key = Some (bs4.AStr v))
  ∧ t.2 !! "href" = Some (bs4.AStr (Doc.href m))
  ∧ (λ t, (t.2 !! "href", t.2 !! "class", t.2 !! "data-x", t.2 !! "HREF")) <$>
      yielded (parse_links as_markup page_attrs None None)
    = [(Some (bs4.AStr "pkg-1.0.tar.gz"), Some (bs4.AList ["a"; "b"]),
        Some (bs4.AStr "1"), None)].
Proof.
  intros Hscan Hm Ht.
  destruct (parse_links_lookup scan _ _ _ _ _ _ _ Hscan Hm Ht)
    as (base & _ & _ & Hattrs).
  rewrite Hattrs. clear Hattrs.
  pose proof (anchors_carry _ _ _ Hm) as Hcar.
  split_and!.
  - intros k v Hin. rewrite (anchor_attributes_lookup _ _ _ Hcar).
    apply fmap_is_Some. by eapply written_value_is_Some.
  - intros key Hkey.
    rewrite (anchor_attributes_lookup _ _ _ Hcar), fmap_is_Some in Hkey.
    destruct Hkey as [v Hv].
    apply written_value_Some_inv in Hv as (k & v' & Hin & <- & _).
    split; [apply lower_idem | eauto].
  - intros v Hv. exists (Str.findall_nonspace v).
    split; [apply findall_nonspace_tokens|].
    by rewrite (anchor_attributes_lookup _ _ _ Hcar), Hv.
  - intros key v Hv Hno.
    by rewrite (anchor_attributes_lookup _ _ _ Hcar), Hv, Hno.
  - rewrite (anchor_attributes_lookup _ _ _ Hcar).
    destruct m as [|n a ch]; [done|]. destruct Hcar as [_ [v Hv]].
    simpl. by rewrite Hv.
  - by vm_compute.
Qed.

(** C5, amended. The text of a yielded triple is the concatenation, with
    the whitespace at both ends removed and everything in between kept, of
    the text nodes below its anchor that count as text of the page: the
    character data that lies in no [script], [style], [template], [rt] or
    [rp] element, whether that element is inside the anchor or around it,
    and the CDATA sections.  ["  foo \n bar  "] gives ["foo \n bar"]. *)
Theorem parse_links_text html base_url from_encoding doc i ancestors m t :
  scan html from_encoding = Ok doc →
  Doc.placed_anchors doc !! i = Some (ancestors, m) →
  yielded (parse_links scan html base_url from_encoding) !! i = Some t →
  Doc.stripped
    (Str.join0 (Doc.link_text (Doc.apart ancestors) (Doc.tag_of ancestors m)))
    t.1.1
  ∧ Doc.stripped foo_bar_raw foo_bar
  ∧ Str.strip foo_bar_raw = foo_bar
  ∧ (λ t, t.1.1) <$> yielded (parse_links as_markup page_attrs None None)
    = [foo_bar].
Proof.
  intros Hscan Hm Ht.
  destruct (parse_links_lookup_placed scan _ _ _ _ _ _ _ _ Hscan Hm Ht)
    as (base & _ & _ & Htext & _).
  split; [|split; [|by vm_compute]].
  - rewrite Htext.
    rewrite (strings_link_text "href")
      by (by eapply placed_anchors_carry).
    apply strip_stripped.
  - replace foo_bar with (Str.strip foo_bar_raw) by (by vm_compute).
    apply strip_stripped.
Qed.

(** C10. On an anchor the attributes held as a list of tokens are those
    the parser treats as multi-valued there ([class], [accesskey],
    [dropzone], [rel] and [rev]), not [class] alone; every other
    attribute is held as the string written. *)
Theorem parse_links_multi_valued html base_url from_encoding doc i m t key v :
  scan html from_encoding = Ok doc →
  Doc.anchors doc !! i = Some m →
  yielded (parse_links scan html base_url from_encoding) !! i = Some t →
  Doc.written_value (Doc.written m) key = Some v →
  (bs4.is_cdata_list "a" key = true
   ↔ key ∈ ["class"; "accesskey"; "dropzone"; "rel"; "rev"])
  ∧ (bs4.is_cdata_list "a" key = true →
     ∃ toks, Doc.tokens v toks ∧ t.2 !! key = Some (bs4.AList toks))
  ∧ (bs4.is_cdata_list "a" key = false → t.2 !! key = Some (bs4.AStr v)).
Proof.
  intros Hscan Hm Ht Hv.
  destruct (parse_links_lookup scan _ _ _ _ _ _ _ Hscan Hm Ht)
    as (base & _ & _ & Hattrs).
  rewrite Hattrs.
  rewrite (anchor_attributes_lookup _ _ _ (anchors_carry _ _ _ Hm)), Hv.
  split; [apply cdata_list_on_anchor|]. split; intros ->; simpl; [|done].
  exists (Str.findall_nonspace v). split; [apply findall_nonspace_tokens|done].
Qed.

Lemma search_tag_getitem name attr e :
  bs4.search_tag name attr e → ∃ v, bs4.getitem e attr = Ok v.
Proof.
  destruct e as [cls s|n a cs]; simpl; [done|].
  intros [_ [v Hv]]. rewrite Hv. eauto.
Qed.

(** C9. Neither lookup of [href] in [parse_links] fails: the [<base>] tag
    and every anchor were found by a search that requires the attribute,
    so the item is there.  An exception that leaves [parse_links] is
    therefore never that of a lookup: it is the one with which the parser
    rejected the page, or one that [urljoin] raised, and that one is no
    [KeyError]. *)
Theorem parse_links_lookups_never_fail html base_url from_encoding :
  (∀ soup, BeautifulSoup scan html from_encoding = Ok soup →
     (∀ base_tag, bs4.find soup "base" "href" = Some base_tag →
        ∃ v, bs4.getitem base_tag "href" = Ok v)
     ∧ (∀ link, link ∈ bs4.find_all soup "a" "href" →
          ∃ v, bs4.getitem link "href" = Ok v))
  ∧ (∀ e, raised (parse_links scan html base_url from_encoding) = Some e →
       scan html from_encoding = Err e
       ∨ ((∀ key, e ≠ KeyError key)
          ∧ ∃ base url, urllib.urljoin base url = Err e)).
Proof.
  split.
  - intros soup _. split.
    + intros base_tag Hfind. unfold bs4.find in Hfind.
      apply head_Some_elem_of, list_elem_of_filter in Hfind as [Hs _].
      by eapply search_tag_getitem.
    + intros link [Hs _]%list_elem_of_filter. by eapply search_tag_getitem.
  - intros e Hraised.
    destruct (scan html from_encoding) as [doc|e'] eqn:Hscan.
    + right.
      assert (∃ base url, urllib.urljoin base url = Err e)
        as (base & url & Hjoin).
      { destruct (parse_links_failure scan _ _ _ _ _ Hscan Hraised)
          as [(_ & b & supplied & _ & _ & Hjoin)|(base & m & _ & _ & Hjoin)];
          eauto. }
      split; [|eauto]. intros key ->.
      by apply urljoin_raises in Hjoin.
    + left. rewrite (parse_links_rejected scan _ _ _ _ Hscan) in Hraised.
      by injection Hraised as ->.
Qed.

End parse_links_properties.

(** ** The specified properties of the two adapters *)

Section adapter_properties.

Context {Html : Type} (scan : Html → option string → result (list markup)).
Context {DistributionPackage : Type}
        (from_link : Link → option string → result DistributionPackage).

Lemma project_pairs_yielded links :
  yielded (project_pairs links) = (λ t, (t.1.1, t.1.2)) <$> yielded links.
Proof.
  induction links as [| |[[filename url] attrs] rest IH]; simpl; [done..|].
  by rewrite IH.
Qed.

Lemma project_pairs_raised links :
  raised (project_pairs links) = raised links.
Proof. induction links as [| |[[filename url] attrs] rest IH]; by simpl. Qed.

(** C6. [parse_simple_index] yields the (text, URL) pair of every triple
    of [parse_links] on the same arguments, in the same order and number,
    and ends the same way.  A page linking to PkgA and PkgB gives
    their two pairs. *)
Theorem parse_simple_index_projects html base_url from_encoding :
  yielded (parse_simple_index scan html base_url from_encoding)
  = (λ t, (t.1.1, t.1.2))
      <$> yielded (parse_links scan html base_url from_encoding)
  ∧ length (yielded (parse_simple_index scan html base_url from_encoding))
    = length (yielded (parse_links scan html base_url from_encoding))
  ∧ raised (parse_simple_index scan html base_url from_encoding)
    = raised (parse_links scan html base_url from_encoding)
  ∧ yielded (parse_simple_index as_markup page_index None None)
    = [("PkgA", "http://x/a"); ("PkgB", "http://x/b")].
Proof.
  unfold parse_simple_index. split_and!.
  - apply project_pairs_yielded.
  - by rewrite project_pairs_yielded, length_fmap.
  - apply project_pairs_raised.
  - by vm_compute.
Qed.

(** The loop of [parse_project_page] returns a list exactly when nothing
    is raised; the list is then [files] followed by the package of every
    link in order. *)
Lemma collect_files_Ok hint links files result :
  collect_files from_link hint links files = Ok result
  ↔ raised links = None
    ∧ ∃ packages,
        result = files ++ packages
        ∧ Forall2 (λ t package,
                     from_link (mkLink t.1.1 t.1.2 t.2) hint = Ok package)
            (yielded links) packages.
Proof.
  revert files.
  induction links as [|e|[[text url] attrs] rest IH]; intros files; simpl.
  - split.
    + intros [= <-]. split; [done|]. exists []. by rewrite app_nil_r.
    + intros (_ & packages & -> & ->%Forall2_nil_inv_l). by rewrite app_nil_r.
  - split; [done|]. by intros [? _].
  - destruct (from_link (mkLink text url attrs) hint) as [package|e] eqn:Hp;
      simpl.
    + rewrite IH. split.
      * intros (Hnone & packages & -> & Hall). split; [done|].
        exists (package :: packages). rewrite <- app_assoc. split; [done|].
        by constructor.
      * intros (Hnone & packages & -> & Hall). split; [done|].
        apply Forall2_cons_inv_l in Hall as (p & ps & Hp' & Hall & ->).
        simpl in Hp'. rewrite Hp in Hp'. injection Hp' as <-.
        exists ps. by rewrite <- app_assoc.
    + split; [done|]. intros (_ & packages & _ & Hall).
      apply Forall2_cons_inv_l in Hall as (p & ps & Hp' & _ & _).
      simpl in Hp'. by rewrite Hp in Hp'.
Qed.

(** C7, amended. [parse_project_page] returns a list exactly when
    [parse_links] raises nothing and the classifier accepts every link;
    the list then holds, in document order, the package that
    [from_link] makes of the [Link] of each triple and of the project
    hint, and nothing else.  Otherwise the exception propagates and no
    list is returned. *)
Theorem parse_project_page_classifies html base_url from_encoding hint files :
  let links := parse_links scan html base_url from_encoding in
  parse_project_page scan from_link html base_url from_encoding hint
  = Ok files
  ↔ raised links = None
    ∧ Forall2 (λ t package,
                 from_link (mkLink t.1.1 t.1.2 t.2) hint = Ok package)
        (yielded links) files.
Proof.
  intros links. unfold parse_project_page. fold links.
  rewrite collect_files_Ok. split.
  - by intros (? & packages & -> & ?).
  - intros (? & ?). split; [done|]. by exists files.
Qed.

End adapter_properties.

(** ** Generator objects of separate calls *)

Section store_facts.

Context {A : Type}.
Implicit Types (store : list (gen A)) (g : gen A).

Lemma turns_cons it it' schedule :
  turns it (it' :: schedule)
  = if decide (it' = it) then S (turns it schedule) else turns it schedule.
Proof. unfold turns. rewrite filter_cons. by case_decide. Qed.

(** What one consumer sees depends on its own generator only. *)
Lemma run_observed store schedule it g :
  store !! it = Some g →
  observed it (run store schedule) = iterate (turns it schedule) g.
Proof.
  revert store g. induction schedule as [|it' later IH]; intros store g Hg;
    [done|].
  rewrite turns_cons. simpl. unfold next.
  destruct (store !! it') as [g'|] eqn:Hg'.
  - unfold observed. simpl. fold (observed (A:=A) it).
    case_decide as Hit.
    + subst it'. rewrite Nat.eqb_refl. simpl. simplify_eq. f_equal.
      apply IH. apply list_lookup_insert_eq. by eapply lookup_lt_Some.
    + rewrite (proj2 (Nat.eqb_neq _ _)) by done.
      apply IH. by rewrite list_lookup_insert_ne.
  - case_decide; [congruence|]. by apply IH.
Qed.

End store_facts.

(** ** The cache of [urlsplit] *)

(** The dictionary of CPython 3.10 and the [lru_cache] of 3.11 hold,
    as long as nothing else writes them, results of [urlsplit] only, and
    [urlsplit] returns with either what it returns without a cache. *)
Lemma urlsplit_sound url scheme :
  sound with_cache.valid (with_cache.urlsplit url scheme)
        (urllib.urlsplit url scheme).
Proof.
  intros c Hc. unfold with_cache.urlsplit, urllib.urlsplit. cbv zeta.
  set (key := urllib.urlsplit_key url scheme).
  set (c' := if (with_cache.MAX_CACHE_SIZE <=? size c)%nat then ∅ else c).
  assert (with_cache.valid c') as Hc'.
  { unfold c'. destruct (_ <=? _)%nat; [|done]. intros k r Hk.
    by rewrite lookup_empty in Hk. }
  destruct (c !! key) as [cached|] eqn:Hkey.
  - split; [|done]. symmetry. exact (Hc key cached Hkey).
  - destruct (urllib.urlsplit_parse key.1 key.2) as [v|e] eqn:Hv;
      [|by split].
    split; [done|]. intros k r Hk. cbn [snd] in Hk.
    destruct (decide (k = key)) as [->|Hne].
    + rewrite lookup_insert_eq in Hk. by injection Hk as <-.
    + rewrite lookup_insert_ne in Hk by done. exact (Hc' k r Hk).
Qed.

Lemma cache_get_elem_of key links v :
  with_cache.cache_get key links = Some v → (key, v) ∈ links.
Proof.
  induction links as [|[k w] links IH]; simpl; [done|].
  case_decide as Hk.
  - intros [= ->]. subst k. left.
  - intros Hv. right. by apply IH.
Qed.

Lemma urlsplit_lru_sound url scheme :
  sound with_cache.valid_lru (with_cache.urlsplit_lru url scheme)
        (urllib.urlsplit url scheme).
Proof.
  intros links Hlinks. unfold with_cache.urlsplit_lru. cbv zeta.
  destruct (with_cache.cache_get (url, scheme) links) as [v|] eqn:Hget.
  - apply cache_get_elem_of in Hget.
    pose proof (proj1 (Forall_forall _ _) Hlinks _ Hget) as Hv. simpl in Hv.
    split; [done|]. cbn [snd]. constructor; [done|]. apply Forall_forall.
    intros kv [_ Hin]%list_elem_of_filter.
    exact (proj1 (Forall_forall _ _) Hlinks kv Hin).
  - destruct (urllib.urlsplit url scheme) as [v|e] eqn:Hv; [|by split].
    split; [done|]. cbn [snd]. apply Forall_take. by constructor.
Qed.

Section threaded_facts.

Context {S : Type} (valid : S → Prop).
Context (urlsplit : string → string → stateful S urllib.SplitResult).
Hypothesis urlsplit_ok :
  ∀ url scheme, sound valid (urlsplit url scheme) (urllib.urlsplit url scheme).

Lemma sound_pure {A} (r : result A) : sound valid (pure r) r.
Proof. by intros s Hs. Qed.

Lemma sound_ret {A} (a : A) : sound valid (mret a) (Ok a).
Proof. by intros s Hs. Qed.

Lemma sound_bind {A B} (m : stateful S A) (k : A → stateful S B) r k' :
  sound valid m r → (∀ a, sound valid (k a) (k' a)) →
  sound valid (m ≫= k) (r ≫= k').
Proof.
  intros Hm Hk s Hs. destruct (Hm s Hs) as [Hr Hs'].
  unfold mbind, stateful_bind. destruct (m s) as [[a|e] s']; simpl in *;
    subst r; simpl; [by apply Hk | done].
Qed.

Lemma urlparse_sound url scheme :
  sound valid (with_cache.urlparse urlsplit url scheme)
        (urllib.urlparse url scheme).
Proof.
  apply sound_bind; [apply urlsplit_ok|]. intros r. apply sound_ret.
Qed.

Lemma urljoin_sound base url :
  sound valid (with_cache.urljoin urlsplit base url)
        (urllib.urljoin base url).
Proof.
  unfold with_cache.urljoin, urllib.urljoin.
  destruct (negb (urllib.nonempty base)); [apply sound_ret|].
  destruct (negb (urllib.nonempty url)); [apply sound_ret|].
  apply sound_bind; [apply urlparse_sound|]. intros b.
  apply sound_bind; [apply urlparse_sound|]. intros u. apply sound_ret.
Qed.

Lemma effective_base_url_sound soup base_url :
  sound valid (with_cache.effective_base_url urlsplit soup base_url)
        (effective_base_url soup base_url).
Proof.
  unfold with_cache.effective_base_url, effective_base_url.
  destruct (bs4.find soup "base" "href") as [base_tag|]; [|apply sound_ret].
  destruct base_url as [base_url|].
  - apply sound_bind; [apply sound_pure|]. intros href.
    apply sound_bind; [apply urljoin_sound|]. intros joined. apply sound_ret.
  - apply sound_bind; [apply sound_pure|]. intros href. apply sound_ret.
Qed.

Lemma basejoin_sound base_url url :
  sound valid (with_cache.basejoin urlsplit base_url url)
        (basejoin base_url url).
Proof.
  destruct base_url as [base_url|]; [apply urljoin_sound | apply sound_ret].
Qed.

Lemma agrees_resumed {A} (g : gen A) (g' : generator S A) s :
  agrees valid g g' → valid s →
  valid (g' s).2
  ∧ match g, (g' s).1 with
    | Done, Returns => True
    | Raise e, Throws e' => e = e'
    | Yield a rest, Gives a' rest' => a = a' ∧ agrees valid rest rest'
    | _, _ => False
    end.
Proof. intros Hg Hs. destruct g; exact (Hg s Hs). Qed.

Lemma agrees_intro {A} (g : gen A) (g' : generator S A) :
  (∀ s, valid s →
     valid (g' s).2
     ∧ match g, (g' s).1 with
       | Done, Returns => True
       | Raise e, Throws e' => e = e'
       | Yield a rest, Gives a' rest' => a = a' ∧ agrees valid rest rest'
       | _, _ => False
       end) →
  agrees valid g g'.
Proof. intros Hg. destruct g; exact Hg. Qed.

Lemma for_yield_agrees {A B} (xs : list A) body (body' : A → stateful S B) :
  (∀ x, sound valid (body' x) (body x)) →
  agrees valid (for_yield xs body) (with_cache.for_yield xs body').
Proof.
  intros Hbody. induction xs as [|x xs IH]; apply agrees_intro; intros s Hs;
    simpl; [done|].
  destruct (Hbody x s Hs) as [Hr Hs'].
  destruct (body' x s) as [[b|e] s']; simpl in *; rewrite <- Hr; done.
Qed.

Context {Html : Type} (scan : Html → option string → result (list markup)).

(** The generator of [parse_links] gives, whatever the state of the
    cache it is resumed with, what [parse_links] gives without a cache. *)
Lemma parse_links_agrees html base_url from_encoding :
  agrees valid (parse_links scan html base_url from_encoding)
    (with_cache.parse_links urlsplit scan html base_url from_encoding).
Proof.
  apply agrees_intro. intros s Hs.
  unfold parse_links, with_cache.parse_links.
  destruct (BeautifulSoup scan html from_encoding) as [soup|e]; [|done].
  destruct (effective_base_url_sound soup base_url s Hs) as [Hr Hs'].
  destruct (with_cache.effective_base_url urlsplit soup base_url s)
    as [[base|e] s']; simpl in *; rewrite <- Hr; [|done].
  apply agrees_resumed; [|done]. apply for_yield_agrees. intros link.
  apply sound_bind; [apply sound_pure|]. intros href.
  apply sound_bind; [apply basejoin_sound|]. intros url. apply sound_ret.
Qed.

Lemma agrees_finished {A} : agrees valid (A:=A) Done finished.
Proof. by intros s Hs. Qed.

(** Generators that agree with cache-free ones leave the same trace as
    those, however they are scheduled. *)
Lemma run_shared_run {A} (store : list (gen A)) objects s schedule :
  Forall2 (agrees valid) store objects → valid s →
  run_shared objects s schedule = run store schedule.
Proof.
  revert store objects s.
  induction schedule as [|it later IH]; intros store objects s Hall Hs;
    [done|].
  simpl. unfold next_shared, next.
  destruct (store !! it) as [g|] eqn:Hg.
  - destruct (Forall2_lookup_l _ _ _ _ _ Hall Hg) as (g' & Hg' & Hagree).
    rewrite Hg'. destruct (agrees_resumed g g' s Hagree Hs) as [Hs' Hstep].
    destruct g as [|e|a rest], (g' s) as [[|e'|a' rest'] s'];
      simpl in *; try done.
    + f_equal. apply IH; [|done].
      apply Forall2_insert; [done | apply agrees_finished].
    + subst e'. f_equal. apply IH; [|done].
      apply Forall2_insert; [done | apply agrees_finished].
    + destruct Hstep as [<- Hrest]. f_equal. apply IH; [|done].
      by apply Forall2_insert.
  - assert (objects !! it = None) as ->.
    { apply lookup_ge_None. rewrite <- (Forall2_length _ _ _ Hall).
      by apply lookup_ge_None. }
    by apply IH.
Qed.

(** Any number of calls of [parse_links], advanced in any order: each
    consumer sees what it would see of its own call alone. *)
Lemma parse_links_observed (calls : list (Html * option string * option string))
    s schedule it call :
  valid s →
  calls !! it = Some call →
  observed it
    (run_shared
       ((λ call, with_cache.parse_links urlsplit scan call.1.1 call.1.2 call.2)
          <$> calls) s schedule)
  = iterate (turns it schedule) (parse_links scan call.1.1 call.1.2 call.2).
Proof.
  intros Hs Hcall.
  rewrite (run_shared_run
             ((λ call, parse_links scan call.1.1 call.1.2 call.2) <$> calls)).
  - apply run_observed. by rewrite list_lookup_fmap, Hcall.
  - apply Forall2_fmap, Forall_Forall2_diag, Forall_forall.
    intros c _. apply parse_links_agrees.
  - done.
Qed.

End threaded_facts.

Section independence.

Context {Html : Type} (scan : Html → option string → result (list markup)).

(** C8. Calls of [parse_links] share no iteration state: each call makes
    a generator object of its own, and the one thing the objects share,
    the result cache of [urlsplit], does not show in what they give.
    Whatever results of [urlsplit] the cache holds to begin with, and in
    whatever order the generators of any number of calls are advanced,
    each gives what its call gives when iterated alone; so two calls on
    the same input give identical results, each iterable independently of
    the other. *)
Theorem parse_links_calls_independent
    (calls : list (Html * option string * option string))
    (_parse_cache : with_cache.cache) schedule :
  with_cache.valid _parse_cache →
  let objects :=
    (λ call, with_cache.parse_links with_cache.urlsplit scan
               call.1.1 call.1.2 call.2) <$> calls in
  let trace := run_shared objects _parse_cache schedule in
  (∀ it html base_url from_encoding,
     calls !! it = Some (html, base_url, from_encoding) →
     observed it trace
     = iterate (turns it schedule)
         (parse_links scan html base_url from_encoding))
  ∧ (∀ first second call,
       calls !! first = Some call → calls !! second = Some call →
       turns first schedule = turns second schedule →
       observed first trace = observed second trace).
Proof.
  intros Hvalid objects trace. split.
  - intros it html base_url from_encoding Hcall.
    exact (parse_links_observed with_cache.valid with_cache.urlsplit
             urlsplit_sound scan calls _ schedule it _ Hvalid Hcall).
  - intros first second call Hfirst Hsecond Hturns. unfold trace, objects.
    rewrite (parse_links_observed with_cache.valid with_cache.urlsplit
               urlsplit_sound scan calls _ schedule first _ Hvalid Hfirst).
    rewrite (parse_links_observed with_cache.valid with_cache.urlsplit
               urlsplit_sound scan calls _ schedule second _ Hvalid Hsecond).
    by rewrite Hturns.
Qed.

End independence.

(** ** The properties on the example pages *)

Lemma parse_links_one_triple_per_anchor_witness :
  raised (parse_links as_markup page_index None None) = None
  ∧ length (Doc.anchors page_index) = 2
  ∧ Forall2 (λ m t, t.2 = Doc.attributes m)
      (Doc.anchors page_index)
      (yielded (parse_links as_markup page_index None None))
  ∧ parse_links rejecting "<![x[y]]>" None None
    = Raise (RaisedBy "bs4" "ParserRejectedMarkup").
Proof.
  split_and!; [vm_compute; reflexivity | vm_compute; reflexivity | |].
  - exact (proj1 (proj2 (parse_links_one_triple_per_anchor
                           as_markup page_index None None))).
  - exact (parse_links_one_triple_per_anchor rejecting "<![x[y]]>" None None).
Defined.

(** Three anchors carry an [href]; the second cannot be resolved, so one
    triple is yielded before the [ValueError] propagates. *)
Lemma parse_links_stops_at_bad_href :
  length (Doc.anchors page_bad_href) = 3
  ∧ (λ t, t.1.2) <$>
      yielded (parse_links as_markup page_bad_href (Some "http://a/") None)
    = ["http://a/first"]
  ∧ raised (parse_links as_markup page_bad_href (Some "http://a/") None)
    = Some (ValueError "Invalid IPv6 URL")
  ∧ ¬ Forall2 (λ m t, t.2 = Doc.attributes m)
        (Doc.anchors page_bad_href)
        (yielded (parse_links as_markup page_bad_href (Some "http://a/") None)).
Proof.
  split_and!; [vm_compute; reflexivity..|].
  intros Hlen%Forall2_length. vm_compute in Hlen. discriminate.
Qed.

Lemma effective_base_url_cases_witness :
  as_markup page_with_base None = Ok page_with_base
  ∧ BeautifulSoup as_markup page_with_base None
    = Ok (bs4.soup_of page_with_base)
  ∧ Doc.href <$> Doc.first_base page_with_base = Some "c/"
  ∧ effective_base_url (bs4.soup_of page_with_base) (Some "http://a/b/")
    = match Doc.first_base page_with_base with
      | Some b =>
          joined ← urllib.urljoin "http://a/b/" (Doc.href b); Ok (Some joined)
      | None => Ok (Some "http://a/b/")
      end.
Proof.
  split_and!; [reflexivity | reflexivity | vm_compute; reflexivity |].
  exact (proj1 (effective_base_url_cases as_markup page_with_base
                  (Some "http://a/b/") None page_with_base
                  (bs4.soup_of page_with_base) eq_refl eq_refl)).
Defined.

Lemma parse_links_url_witness :
  let m := Element "a" [("href", Some "d")] [Data NavigableString "d"] in
  ∃ t,
    as_markup page_with_base None = Ok page_with_base
    ∧ Doc.anchors page_with_base !! 0 = Some m
    ∧ yielded (parse_links as_markup page_with_base (Some "http://a/b/") None)
        !! 0 = Some t
    ∧ t.1.2 = "http://a/b/c/d"
    ∧ match effective_base_url (bs4.soup_of page_with_base)
              (Some "http://a/b/") with
      | Ok (Some base) => urllib.urljoin base (Doc.href m) = Ok t.1.2
      | Ok None => t.1.2 = Doc.href m
      | Err _ => False
      end.
Proof.
  intros m.
  assert (Doc.anchors page_with_base !! 0 = Some m)
    as Hm by (vm_compute; reflexivity).
  assert (∃ t, yielded (parse_links as_markup page_with_base
                          (Some "http://a/b/") None) !! 0 = Some t
               ∧ t.1.2 = "http://a/b/c/d") as (t & Ht & Hurl).
  { eexists. split; vm_compute; reflexivity. }
  destruct (parse_links_url as_markup page_with_base (Some "http://a/b/")
              None page_with_base 0 m t eq_refl Hm Ht) as [Hjoin _].
  exists t. split_and!; try assumption. reflexivity.
Defined.

Lemma parse_links_attributes_witness :
  ∃ t,
    as_markup page_attrs None = Ok page_attrs
    ∧ Doc.anchors page_attrs !! 0 = Some anchor_attrs
    ∧ yielded (parse_links as_markup page_attrs None None) !! 0 = Some t
    ∧ Doc.href anchor_attrs = "pkg-1.0.tar.gz"
    ∧ t.2 !! "href" = Some (bs4.AStr (Doc.href anchor_attrs))
    ∧ (∀ key, is_Some (t.2 !! key) → Str.lower key = key).
Proof.
  assert (Doc.anchors page_attrs !! 0 = Some anchor_attrs)
    as Hm by (vm_compute; reflexivity).
  assert (∃ t, yielded (parse_links as_markup page_attrs None None) !! 0
               = Some t) as (t & Ht).
  { eexists. vm_compute; reflexivity. }
  destruct (parse_links_attributes as_markup page_attrs None None page_attrs
              0 anchor_attrs t eq_refl Hm Ht)
    as (_ & Hkeys & _ & _ & Hhref & _).
  exists t. split_and!; try assumption.
  - reflexivity.
  - vm_compute; reflexivity.
  - intros key Hkey. by destruct (Hkeys key Hkey).
Defined.

Lemma parse_links_text_witness :
  ∃ t,
    as_markup page_attrs None = Ok page_attrs
    ∧ Doc.placed_anchors page_attrs !! 0 = Some ([], anchor_attrs)
    ∧ yielded (parse_links as_markup page_attrs None None) !! 0 = Some t
    ∧ Doc.stripped
        (Str.join0 (Doc.link_text (Doc.apart [])
                      (Doc.tag_of [] anchor_attrs))) t.1.1
    ∧ t.1.1 = foo_bar.
Proof.
  assert (Doc.placed_anchors page_attrs !! 0 = Some ([], anchor_attrs))
    as Hm by (vm_compute; reflexivity).
  assert (∃ t, yielded (parse_links as_markup page_attrs None None) !! 0
               = Some t ∧ t.1.1 = foo_bar) as (t & Ht & Hfoo).
  { eexists. split; vm_compute; reflexivity. }
  pose proof (proj1 (parse_links_text as_markup page_attrs None None
                       page_attrs 0 [] anchor_attrs t eq_refl Hm Ht)) as Hs.
  exists t. split_and!; try assumption. reflexivity.
Defined.

(** The text of a link leaves out what stands in a [script] element
    inside the anchor, although that is a text node below the anchor: for
    [<a href="x"><script>foo</script>bar</a>] the text is ["bar"], not
    ["foobar"]. *)
Lemma parse_links_text_skips_script :
  Doc.placed_anchors page_script = [([], anchor_script)]
  ∧ (λ t, t.1.1) <$> yielded (parse_links as_markup page_script None None)
    = ["bar"]
  ∧ Doc.text_nodes (Doc.tag_of [] anchor_script) = ["foo"; "bar"]
  ∧ Doc.stripped (Str.join0 (Doc.text_nodes (Doc.tag_of [] anchor_script)))
      "foobar"
  ∧ ¬ Doc.stripped (Str.join0 (Doc.text_nodes (Doc.tag_of [] anchor_script)))
        "bar".
Proof.
  split_and!; [vm_compute; reflexivity..| |].
  - replace "foobar"
      with (Str.strip (Str.join0 (Doc.text_nodes (Doc.tag_of [] anchor_script))))
      by (vm_compute; reflexivity).
    apply strip_stripped.
  - replace (Str.join0 (Doc.text_nodes (Doc.tag_of [] anchor_script)))
      with "foobar" by (vm_compute; reflexivity).
    intros (l & r & Heq & Hl & _).
    destruct l as [|c l]; [discriminate|].
    rewrite str_app_cons in Heq. injection Heq as <- _.
    vm_compute in Hl. discriminate.
Qed.

Lemma parse_links_multi_valued_witness :
  ∃ t toks,
    as_markup page_attrs None = Ok page_attrs
    ∧ Doc.anchors page_attrs !! 0 = Some anchor_attrs
    ∧ yielded (parse_links as_markup page_attrs None None) !! 0 = Some t
    ∧ Doc.written_value (Doc.written anchor_attrs) "rel"
      = Some " nofollow  noopener "
    ∧ Doc.tokens " nofollow  noopener " toks
    ∧ t.2 !! "rel" = Some (bs4.AList toks)
    ∧ t.2 !! "rel" = Some (bs4.AList ["nofollow"; "noopener"]).
Proof.
  assert (Doc.anchors page_attrs !! 0 = Some anchor_attrs)
    as Hm by (vm_compute; reflexivity).
  assert (∃ t, yielded (parse_links as_markup page_attrs None None) !! 0
               = Some t
               ∧ t.2 !! "rel" = Some (bs4.AList ["nofollow"; "noopener"]))
    as (t & Ht & Hrel).
  { eexists. split; vm_compute; reflexivity. }
  assert (Doc.written_value (Doc.written anchor_attrs) "rel"
          = Some " nofollow  noopener ") as Hv by (vm_compute; reflexivity).
  destruct (parse_links_multi_valued as_markup page_attrs None None page_attrs
              0 anchor_attrs t "rel" _ eq_refl Hm Ht Hv) as (_ & Hlist & _).
  destruct Hlist as (toks & Htoks & Hkey); [vm_compute; reflexivity|].
  exists t, toks. split_and!; try assumption. reflexivity.
Defined.

Lemma parse_project_page_classifies_witness :
  ∃ files,
    parse_project_page as_markup link_itself page_index None None None
    = Ok files
    ∧ text <$> files = ["PkgA"; "PkgB"]
    ∧ url <$> files = ["http://x/a"; "http://x/b"]
    ∧ raised (parse_links as_markup page_index None None) = None
    ∧ Forall2 (λ t package,
                 link_itself (mkLink t.1.1 t.1.2 t.2) None = Ok package)
        (yielded (parse_links as_markup page_index None None)) files.
Proof.
  assert (∃ files,
            parse_project_page as_markup link_itself page_index None None None
            = Ok files
            ∧ text <$> files = ["PkgA"; "PkgB"]
            ∧ url <$> files = ["http://x/a"; "http://x/b"])
    as (files & Hok & Htext & Hurl).
  { eexists. split_and!; vm_compute; reflexivity. }
  destruct (proj1 (parse_project_page_classifies as_markup link_itself
                     page_index None None None files) Hok) as [Hnone Hall].
  exists files. split_and!; assumption.
Defined.

(** With a link that cannot be resolved no list is returned: the
    [ValueError] of [urljoin] leaves [parse_project_page]. *)
Lemma parse_project_page_raises :
  parse_project_page as_markup link_itself page_bad_href
    (Some "http://a/") None None
  = Err (ValueError "Invalid IPv6 URL")
  ∧ length (yielded (parse_links as_markup page_bad_href
                       (Some "http://a/") None)) = 1.
Proof. split; vm_compute; reflexivity. Qed.

(** Two calls on the page with the link that cannot be resolved, their
    generators advanced in turns, starting from an empty cache. *)
Lemma parse_links_calls_independent_witness :
  let calls :=
    [(page_bad_href, Some "http://a/", None);
     (page_bad_href, Some "http://a/", None)] in
  let schedule := [0; 1; 1; 0; 1; 0] in
  let trace :=
    run_shared
      ((λ call, with_cache.parse_links with_cache.urlsplit as_markup
                  call.1.1 call.1.2 call.2) <$> calls) ∅ schedule in
  with_cache.valid ∅
  ∧ observed 0 trace
    = iterate 3 (parse_links as_markup page_bad_href (Some "http://a/") None)
  ∧ observed 0 trace = observed 1 trace
  ∧ (λ ev, match ev with Item t => Some t.1.2 | _ => None end)
      <$> observed 0 trace
    = [Some "http://a/first"; None; None].
Proof.
  intros calls schedule trace.
  assert (with_cache.valid ∅) as Hvalid.
  { intros key r Hkey. by rewrite lookup_empty in Hkey. }
  destruct (parse_links_calls_independent as_markup calls ∅ schedule Hvalid)
    as [Hobserved Hsame].
  split_and!.
  - exact Hvalid.
  - exact (Hobserved 0 page_bad_href (Some "http://a/") None eq_refl).
  - exact (Hsame 0 1 _ eq_refl eq_refl eq_refl).
  - vm_compute; reflexivity.
Defined.

(** * Further properties of the module *)

Section more_parse_links.

Context {Html : Type} (scan : Html → option string → result (list markup)).

Lemma urljoin_empty_url base : urllib.urljoin base "" = Ok base.
Proof. by destruct base. Qed.

Lemma for_yield_ext {A B} (xs : list A) (body body' : A → result B) :
  (∀ x, x ∈ xs → body x = body' x) → for_yield xs body = for_yield xs body'.
Proof.
  induction xs as [|x xs IH]; intros Hext; simpl; [done|].
  rewrite Hext by left. rewrite IH; [done|].
  intros y Hy. apply Hext. by right.
Qed.

Lemma for_yield_fmap {A B C} (f : A → B) (xs : list A)
    (body : B → result C) :
  for_yield (f <$> xs) body = for_yield xs (λ x, body (f x)).
Proof.
  induction xs as [|x xs IH]; [done|].
  rewrite fmap_cons. cbn [for_yield]. by rewrite IH.
Qed.

Lemma for_yield_all_ok {A B} (xs : list A) (body : A → result B) :
  Forall (λ x, ∃ b, body x = Ok b) xs → raised (for_yield xs body) = None.
Proof.
  induction 1 as [|x xs [b Hb] _ IH]; simpl; [done|]. by rewrite Hb.
Qed.

(** A loop raises the exception of the first item on which its body
    raises. *)
Lemma for_yield_raised_iff {A B} (xs : list A) (body : A → result B) e :
  raised (for_yield xs body) = Some e
  ↔ ∃ i x, xs !! i = Some x ∧ body x = Err e
           ∧ Forall (λ y, ∃ b, body y = Ok b) (take i xs).
Proof.
  induction xs as [|x xs IH]; simpl.
  - split; [done|]. by intros (i & y & Hy & _).
  - destruct (body x) as [b|e'] eqn:Hx; simpl.
    + rewrite IH. split.
      * intros (i & y & Hy & He & Hall). exists (S i), y.
        split_and!; [done..|]. simpl. constructor; eauto.
      * intros (i & y & Hy & He & Hall). destruct i as [|i]; simpl in *.
        { simplify_eq. congruence. }
        exists i, y. split_and!; [done..|]. by inversion Hall.
    + split.
      * intros [= ->]. exists 0, x. split_and!; [done..|]. constructor.
      * intros (i & y & Hy & He & Hall). destruct i as [|i]; simpl in *.
        { simplify_eq. congruence. }
        inversion Hall as [|?? [b Hb] _]. congruence.
Qed.

(** [parse_links] on a page that the parser accepts, as a loop over the
    anchors of the page. *)
Lemma parse_links_anchors html base_url from_encoding doc :
  scan html from_encoding = Ok doc →
  parse_links scan html base_url from_encoding
  = match effective_base_url (bs4.soup_of doc) base_url with
    | Err e => Raise e
    | Ok base =>
        for_yield (Doc.placed_anchors doc)
          (λ x, url ← basejoin base (Doc.href x.2);
                Ok (Str.strip (Str.join0 (bs4.strings (Doc.tag_of x.1 x.2))),
                    url, Doc.attributes x.2))
    end.
Proof.
  intros Hscan. unfold parse_links, BeautifulSoup. rewrite Hscan.
  destruct (effective_base_url _ base_url) as [base|e]; [|done].
  rewrite find_all_anchors, for_yield_fmap. apply for_yield_ext.
  intros [ancestors m] [Hcar _]%list_elem_of_filter. cbn [fst snd] in *.
  rewrite (getitem_href "a" ancestors m Hcar
             : bs4.getitem (Doc.tag_of ancestors m) "href" ≫= as_str = _).
  by destruct m.
Qed.

(** X1. An empty base URL is as good as none: [parse_links] with
    [base_url=""] behaves, on every page, as it does without a base
    URL. *)
Theorem parse_links_empty_base_url html from_encoding :
  parse_links scan html (Some "") from_encoding
  = parse_links scan html None from_encoding.
Proof.
  unfold parse_links.
  destruct (BeautifulSoup scan html from_encoding) as [soup|e]; [|done].
  unfold effective_base_url.
  destruct (bs4.find _ "base" "href") as [base_tag|].
  - destruct (bs4.getitem base_tag "href" ≫= as_str) as [href|e];
      reflexivity.
  - apply for_yield_ext. intros link _.
    by destruct (bs4.getitem link "href" ≫= as_str).
Qed.

(** X2. On a page that the parser accepts, without a base URL and
    without a [<base>] that carries an [href], [parse_links] raises
    nothing: it yields one triple for every anchor with an [href], in
    document order, and the URL of each triple is the raw [href]. *)
Theorem parse_links_without_base html from_encoding doc :
  scan html from_encoding = Ok doc →
  Doc.first_base doc = None →
  raised (parse_links scan html None from_encoding) = None
  ∧ Forall2 (λ m t, t.1.2 = Doc.href m ∧ t.2 = Doc.attributes m)
      (Doc.anchors doc)
      (yielded (parse_links scan html None from_encoding)).
Proof.
  intros Hscan Hnone.
  pose proof (effective_base_url_eq doc None) as Hbase.
  rewrite Hnone in Hbase.
  assert (raised (parse_links scan html None from_encoding) = None) as Hok.
  { rewrite (parse_links_anchors _ _ _ _ Hscan), Hbase.
    apply for_yield_all_ok, Forall_forall. intros x _. simpl. eauto. }
  split; [done|]. apply Forall2_same_length_lookup_2.
  { symmetry. by apply (parse_links_complete scan _ _ _ _ Hscan). }
  intros i m t Hm Ht.
  destruct (parse_links_lookup scan _ _ _ _ _ _ _ Hscan Hm Ht)
    as (base & Hbase' & Hjoin & Hattrs).
  rewrite Hbase in Hbase'. injection Hbase' as <-. simpl in Hjoin.
  split; [by injection Hjoin | done].
Qed.

(** X3. [parse_links] raises in three cases and no other.  The parser
    rejects the page: its exception is raised.  The [href] of the first
    [<base>] cannot be resolved against the supplied base URL: the
    exception of [urljoin] is raised.  The [href] of some anchor cannot
    be resolved against the effective base URL while those of all anchors
    before it can: the exception of [urljoin] on that anchor is raised. *)
Theorem parse_links_failure_point html base_url from_encoding e :
  raised (parse_links scan html base_url from_encoding) = Some e
  ↔ scan html from_encoding = Err e
    ∨ ∃ doc,
        scan html from_encoding = Ok doc
        ∧ ((∃ b supplied,
              Doc.first_base doc = Some b ∧ base_url = Some supplied
              ∧ urllib.urljoin supplied (Doc.href b) = Err e)
           ∨ (∃ base i m,
                effective_base_url (bs4.soup_of doc) base_url = Ok base
                ∧ Doc.anchors doc !! i = Some m
                ∧ basejoin base (Doc.href m) = Err e
                ∧ Forall (λ m', ∃ url, basejoin base (Doc.href m') = Ok url)
                    (take i (Doc.anchors doc)))).
Proof.
  destruct (scan html from_encoding) as [doc|e'] eqn:Hscan.
  2: { rewrite (parse_links_rejected scan _ _ _ _ Hscan). simpl. split.
       - intros [= ->]. by left.
       - intros [[= ->]|(doc & [=] & _)]. done. }
  rewrite (parse_links_anchors _ _ _ _ Hscan).
  pose proof (effective_base_url_eq doc base_url) as Hbase.
  destruct (effective_base_url _ base_url) as [base|e'] eqn:Heff.
  - rewrite for_yield_raised_iff. split.
    + intros (i & [ancestors m] & Hm & Hbody & Hall). right. exists doc.
      split; [done|]. right. exists base, i, m. split_and!; [done| | |].
      * by rewrite anchors_placed, list_lookup_fmap, Hm.
      * cbn [snd] in Hbody.
        destruct (basejoin base (Doc.href m)) as [u|e0]; [done|].
        by injection Hbody as ->.
      * apply Forall_forall. intros m' Hm'.
        rewrite anchors_placed, <- fmap_take in Hm'.
        apply list_elem_of_fmap in Hm' as (x & -> & Hx).
        destruct (proj1 (Forall_forall _ _) Hall _ Hx) as [b Hb].
        destruct (basejoin base (Doc.href x.2)); [eauto|done].
    + intros [[=]|(doc' & [= <-] & [Hfirst|Hanchor])].
      * destruct Hfirst as (b & supplied & Hb & -> & Hjoin).
        rewrite Hb, Hjoin in Hbase. done.
      * destruct Hanchor as (base' & i & m & Heq & Hm & Hjoin & Hall).
        rewrite Heff in Heq. injection Heq as <-.
        apply anchors_lookup_placed in Hm as [ancestors Hm].
        exists i, (ancestors, m). split_and!; [done| |].
        -- simpl. by rewrite Hjoin.
        -- apply Forall_forall. intros x Hx.
           assert (x.2 ∈ take i (Doc.anchors doc)) as Hx2.
           { rewrite anchors_placed, <- fmap_take.
             by apply list_elem_of_fmap_2. }
           destruct (proj1 (Forall_forall _ _) Hall _ Hx2) as [url Hurl].
           rewrite Hurl. simpl. eauto.
  - simpl. split.
    + intros [= <-]. right. exists doc. split; [done|]. left.
      destruct (Doc.first_base doc) as [b|], base_url as [supplied|];
        try done.
      exists b, supplied. split_and!; [done..|].
      destruct (urllib.urljoin supplied (Doc.href b)); [done|].
      simpl in Hbase. by injection Hbase as ->.
    + intros [[=]|(doc' & [= <-] & [Hfirst|Hanchor])].
      * destruct Hfirst as (b & supplied & Hb & -> & Hjoin).
        rewrite Hb, Hjoin in Hbase. simpl in Hbase. by injection Hbase as ->.
      * destruct Hanchor as (base' & i & m & Heq & _).
        by rewrite Heff in Heq.
Qed.

End more_parse_links.

Section more_adapters.

Context {Html : Type} (scan : Html → option string → result (list markup)).
Context {DistributionPackage : Type}
        (from_link : Link → option string → result DistributionPackage).

(** The loop of [parse_project_page] ends with the first exception met
    while links are produced and classified in turn. *)
Lemma collect_files_Err hint links files e :
  collect_files from_link hint links files = Err e
  ↔ (∃ i t, yielded links !! i = Some t
       ∧ from_link (link_of t) hint = Err e
       ∧ Forall (λ t', ∃ package, from_link (link_of t') hint = Ok package)
           (take i (yielded links)))
    ∨ (raised links = Some e
       ∧ Forall (λ t', ∃ package, from_link (link_of t') hint = Ok package)
           (yielded links)).
Proof.
  revert files.
  induction links as [|e'|[[text url] attrs] rest IH]; intros files; simpl.
  - split; [done|]. intros [(i & t & Hi & _)|[? _]]; done.
  - split.
    + intros [= ->]. right. by split.
    + intros [(i & t & Hi & _)|[[= ->] _]]; done.
  - change (mkLink text url attrs) with (link_of (text, url, attrs)).
    destruct (from_link (link_of (text, url, attrs)) hint)
      as [package|e'] eqn:Hp; simpl.
    + rewrite IH. split.
      * intros [(i & t & Hi & He & Hall)|[Hr Hall]].
        -- left. exists (S i), t. split_and!; [done..|].
           simpl. constructor; eauto.
        -- right. split; [done|]. constructor; eauto.
      * intros [(i & t & Hi & He & Hall)|[Hr Hall]].
        -- left. destruct i as [|i]; simpl in *.
           { simplify_eq. congruence. }
           exists i, t. split_and!; [done..|]. by inversion Hall.
        -- right. split; [done|]. by inversion Hall.
    + split.
      * intros [= ->]. left. exists 0, (text, url, attrs).
        split_and!; [done..|]. simpl. constructor.
      * intros [(i & t & Hi & He & Hall)|[Hr Hall]].
        -- destruct i as [|i]; simpl in *; [simplify_eq; congruence|].
           inversion Hall as [|?? [p Hp'] _]; congruence.
        -- inversion Hall as [|?? [p Hp'] _]; congruence.
Qed.

(** X4. [parse_project_page] raises the first exception met while the
    links are extracted and classified one after the other: that of the
    classifier on the first link it rejects, provided [parse_links] got as
    far as yielding that link, and otherwise that of [parse_links], all
    links yielded before it having been accepted.  So an exception of the
    classifier on an early link hides a URL that cannot be resolved further
    down the page. *)
Theorem parse_project_page_first_error html base_url from_encoding hint e :
  let links := parse_links scan html base_url from_encoding in
  parse_project_page scan from_link html base_url from_encoding hint = Err e
  ↔ (∃ i t, yielded links !! i = Some t
       ∧ from_link (link_of t) hint = Err e
       ∧ Forall (λ t', ∃ package, from_link (link_of t') hint = Ok package)
           (take i (yielded links)))
    ∨ (raised links = Some e
       ∧ Forall (λ t', ∃ package, from_link (link_of t') hint = Ok package)
           (yielded links)).
Proof. intros links. apply collect_files_Err. Qed.

(** X5. A list returned by [parse_project_page] has one package for every
    anchor of the page that carries an [href], in document order: the
    package that the classifier makes of a link whose attributes are
    those of the anchor and whose URL is the [href] of the anchor joined
    to the effective base URL. *)
Theorem parse_project_page_per_anchor html base_url from_encoding hint files :
  parse_project_page scan from_link html base_url from_encoding hint
  = Ok files →
  ∃ doc base,
    scan html from_encoding = Ok doc
    ∧ effective_base_url (bs4.soup_of doc) base_url = Ok base
    ∧ Forall2 (λ m package,
                 ∃ text url,
                   basejoin base (Doc.href m) = Ok url
                   ∧ from_link (mkLink text url (Doc.attributes m)) hint
                     = Ok package)
        (Doc.anchors doc) files.
Proof.
  unfold parse_project_page. intros Hok.
  apply collect_files_Ok in Hok as (Hnone & packages & -> & Hall).
  destruct (scan html from_encoding) as [doc|e] eqn:Hscan.
  2: { by rewrite (parse_links_rejected scan _ _ _ _ Hscan) in Hnone. }
  destruct (effective_base_url (bs4.soup_of doc) base_url)
    as [base|e] eqn:Hbase.
  2: { rewrite (parse_links_anchors scan _ _ _ _ Hscan) in Hnone.
       by rewrite Hbase in Hnone. }
  exists doc, base. split_and!; [done..|]. simpl.
  apply Forall2_same_length_lookup_2.
  { rewrite <- (Forall2_length _ _ _ Hall).
    symmetry. by apply (parse_links_complete scan _ _ _ _ Hscan). }
  intros i m package Hm Hp.
  destruct (Forall2_lookup_r _ _ _ _ _ Hall Hp) as (t & Ht & Hpkg).
  destruct (parse_links_lookup scan _ _ _ _ _ _ _ Hscan Hm Ht)
    as (base' & Hbase' & Hjoin & Hattrs).
  rewrite Hbase in Hbase'. injection Hbase' as <-.
  exists t.1.1, t.1.2. split; [done|]. by rewrite <- Hattrs.
Qed.

End more_adapters.

Section shape_of_the_page.

Context {Html : Type} (scan : Html → option string → result (list markup)).

(** X6. A link with an empty [href] (or an [href] without a value)
    points to the page itself: under an effective base URL its URL is
    that base URL. *)
Theorem parse_links_empty_href html base_url from_encoding doc i m t base :
  scan html from_encoding = Ok doc →
  Doc.anchors doc !! i = Some m →
  yielded (parse_links scan html base_url from_encoding) !! i = Some t →
  Doc.href m = "" →
  effective_base_url (bs4.soup_of doc) base_url = Ok (Some base) →
  t.1.2 = base.
Proof.
  intros Hscan Hm Ht Hempty Hbase.
  destruct (parse_links_lookup scan _ _ _ _ _ _ _ Hscan Hm Ht)
    as (base' & Hbase' & Hjoin & _).
  rewrite Hbase in Hbase'. injection Hbase' as <-.
  simpl in Hjoin. rewrite Hempty, urljoin_empty_url in Hjoin.
  by injection Hjoin.
Qed.

Lemma lstrip_by_all p s : Str.all p s = true → Str.lstrip_by p s = "".
Proof.
  induction s as [|c s IH]; simpl; [done|].
  destruct (p c); [apply IH | done].
Qed.

Lemma strip_empty_iff s :
  Str.strip s = "" ↔ Str.all Str.isspace s = true.
Proof.
  split.
  - intros Hs. destruct (strip_stripped s) as (l & r & Heq & Hl & Hr & _).
    rewrite Hs, str_app_nil_l in Heq. by rewrite Heq, all_app, Hl, Hr.
  - intros Hall. unfold Str.strip, Str.strip_by.
    by rewrite lstrip_by_all.
Qed.

Lemma join0_all p parts :
  Str.all p (Str.join0 parts) = true ↔ Forall (λ s, Str.all p s = true) parts.
Proof.
  induction parts as [|s parts IH]; simpl.
  - split; [constructor | done].
  - rewrite all_app, andb_true_iff, IH, Forall_cons. done.
Qed.

(** X7. The text of a triple is empty exactly when the text nodes that
    make up the text of the link (the character data of the anchor
    outside [script], [style], [template], [rt] and [rp], and its CDATA
    sections) are all whitespace, or there is none; comments inside the
    anchor do not count, nor does what stands in a [script]. *)
Theorem parse_links_blank_text html base_url from_encoding doc i ancestors m t :
  scan html from_encoding = Ok doc →
  Doc.placed_anchors doc !! i = Some (ancestors, m) →
  yielded (parse_links scan html base_url from_encoding) !! i = Some t →
  t.1.1 = ""
  ↔ Forall (λ s, Str.all Str.isspace s = true)
      (Doc.link_text (Doc.apart ancestors) (Doc.tag_of ancestors m)).
Proof.
  intros Hscan Hm Ht.
  destruct (parse_links_lookup_placed scan _ _ _ _ _ _ _ _ Hscan Hm Ht)
    as (base & _ & _ & Htext & _).
  rewrite Htext, strip_empty_iff, join0_all.
  by rewrite (strings_link_text "href") by (by eapply placed_anchors_carry).
Qed.

Lemma build_lower_names p m : bs4.build p (lower_names m) = bs4.build p m.
Proof.
  revert p. induction m as [cls s|n a ch IH] using markup_forall_ind;
    intros p; [done|].
  simpl. rewrite lower_idem. f_equal.
  - unfold bs4.start_tag_attrs, bs4.parse_starttag.
    rewrite lower_idem. do 2 f_equal.
    rewrite <- list_fmap_compose. apply list_fmap_ext.
    intros j [k v] _. simpl. by rewrite lower_idem.
  - rewrite map_map. apply map_ext_Forall.
    eapply Forall_impl; [exact IH|]. intros c Hc. apply Hc.
Qed.

(** X8. The letter case of tag names and attribute names is of no
    account: on a page and on the same page with all these names in lower
    case, [parse_links] yields the same triples and ends the same way. *)
Theorem parse_links_names_in_any_case html base_url from_encoding :
  parse_links (in_lower_case scan) html base_url from_encoding
  = parse_links scan html base_url from_encoding.
Proof.
  unfold parse_links, BeautifulSoup, in_lower_case.
  destruct (scan html from_encoding) as [doc|e]; [|done]. simpl.
  unfold bs4.soup_of.
  replace (map (bs4.build []) (map lower_names doc))
    with (map (bs4.build []) doc); [done|].
  rewrite map_map. apply map_ext. intros m. by rewrite build_lower_names.
Qed.

Lemma for_yield_app {A B} (xs ys : list A) (body : A → result B) :
  for_yield (xs ++ ys) body
  = gen_then (for_yield xs body) (for_yield ys body).
Proof.
  induction xs as [|x xs IH]; simpl; [done|].
  destruct (body x); simpl; [by rewrite IH | done].
Qed.

Lemma find_all_soup_app name attr d1 d2 :
  bs4.find_all (bs4.soup_of (d1 ++ d2)) name attr
  = bs4.find_all (bs4.soup_of d1) name attr
    ++ bs4.find_all (bs4.soup_of d2) name attr.
Proof.
  unfold bs4.find_all, bs4.soup_of. simpl.
  by rewrite map_app, bind_app, filter_app.
Qed.

(** On a document without a [<base>] that carries an [href], [find]
    returns [None]. *)
Lemma find_all_base_nil doc :
  Doc.first_base doc = None →
  bs4.find_all (bs4.soup_of doc) "base" "href" = [].
Proof.
  unfold Doc.first_base. intros Hnil.
  pose proof (find_all_soup "base" "href" doc) as Hall.
  destruct (filter _ (Doc.document_order doc)); [|done].
  by apply Forall2_nil_inv_l in Hall.
Qed.

(** X9. On a page without a [<base>] that carries an [href], the links
    of two pieces of markup put one after the other are the links of the
    first piece followed by those of the second; when a URL of the first
    piece cannot be resolved, the iteration ends there. *)
Theorem parse_links_concat html first second base_url from_encoding d1 d2 :
  scan first from_encoding = Ok d1 →
  scan second from_encoding = Ok d2 →
  scan html from_encoding = Ok (d1 ++ d2) →
  Doc.first_base (d1 ++ d2) = None →
  parse_links scan html base_url from_encoding
  = gen_then (parse_links scan first base_url from_encoding)
             (parse_links scan second base_url from_encoding).
Proof.
  intros Hfirst Hsecond Hscan Hnone.
  assert (bs4.find_all (bs4.soup_of d1) "base" "href" = []
          ∧ bs4.find_all (bs4.soup_of d2) "base" "href" = []) as [H1 H2].
  { apply find_all_base_nil in Hnone.
    rewrite find_all_soup_app in Hnone.
    by apply app_eq_nil in Hnone. }
  unfold parse_links, effective_base_url, BeautifulSoup, bs4.find.
  rewrite Hscan, Hfirst, Hsecond, !find_all_soup_app, H1, H2. simpl.
  apply for_yield_app.
Qed.

Lemma innermost_container_wrapped w stack :
  bs4.containers_get w bs4.string_containers = None →
  bs4.innermost_container (stack ++ [w]) = bs4.innermost_container stack.
Proof.
  intros Hw. induction stack as [|name stack IH].
  - cbn [app bs4.innermost_container]. by rewrite Hw.
  - cbn [app bs4.innermost_container]. by rewrite IH.
Qed.

Lemma preserves_wrapped w stack :
  w ∉ bs4.preserve_whitespace_tags →
  bs4.preserves (stack ++ [w]) = bs4.preserves stack.
Proof.
  intros Hw. unfold bs4.preserves. rewrite existsb_app. simpl.
  rewrite bool_decide_eq_false_2 by done. by rewrite !orb_false_r.
Qed.

(** One more element around the page, other than [pre], [textarea] and
    the container tags, leaves the tree of the page as it is. *)
Lemma build_wrapped w stack m :
  w ∉ bs4.preserve_whitespace_tags →
  bs4.containers_get w bs4.string_containers = None →
  bs4.build (stack ++ [w]) m = bs4.build stack m.
Proof.
  intros Hpre Hcont. revert stack.
  induction m as [cls s|n a ch IH] using markup_forall_ind; intros stack.
  - cbn [bs4.build]. unfold bs4.string_container.
    by rewrite innermost_container_wrapped, preserves_wrapped.
  - cbn [bs4.build]. f_equal. apply map_ext_Forall.
    eapply Forall_impl; [exact IH|]. intros c Hc.
    apply (Hc (Str.lower n :: stack)).
Qed.

Lemma find_all_wrapped name attr n a doc :
  Str.lower n ≠ name →
  Str.lower n ∉ bs4.preserve_whitespace_tags →
  bs4.containers_get (Str.lower n) bs4.string_containers = None →
  bs4.find_all (bs4.soup_of [Element n a doc]) name attr
  = bs4.find_all (bs4.soup_of doc) name attr.
Proof.
  intros Hname Hpre Hcont. unfold bs4.find_all, bs4.soup_of.
  cbn [map bs4.build bs4.descendants].
  rewrite bind_cons, app_nil_r.
  cbn [bs4.descendants].
  rewrite filter_cons_False by (simpl; tauto).
  do 2 f_equal. apply map_ext. intros m.
  by apply (build_wrapped _ []).
Qed.

(** X10. Links are found at any depth: wrapping the page in one more
    element changes nothing of what [parse_links] yields or raises,
    unless the element is an [a] or a [base], keeps whitespace as it is
    ([pre], [textarea]) or sets its text apart ([script], [style],
    [template], [rt], [rp]). *)
Theorem parse_links_wrapped html inner name attrs base_url from_encoding doc :
  scan inner from_encoding = Ok doc →
  scan html from_encoding = Ok [Element name attrs doc] →
  (Str.lower name
     ∉ ["a"; "base"; "pre"; "textarea"; "script"; "style"; "template";
        "rt"; "rp"]) →
  parse_links scan html base_url from_encoding
  = parse_links scan inner base_url from_encoding.
Proof.
  intros Hinner Hscan Hname.
  assert (Str.lower name ≠ "a" ∧ Str.lower name ≠ "base"
          ∧ (Str.lower name ∉ bs4.preserve_whitespace_tags)
          ∧ bs4.containers_get (Str.lower name) bs4.string_containers = None)
    as (Ha & Hb & Hpre & Hcont).
  { rewrite !not_elem_of_cons in Hname.
    destruct Hname as (Ha & Hb & Hp & Ht & Hsc & Hst & Hte & Hrt & Hrp & _).
    split_and!; [done..| |].
    - unfold bs4.preserve_whitespace_tags. rewrite !not_elem_of_cons.
      split_and!; [done..|apply not_elem_of_nil].
    - pose proof (containers_get_apart (Str.lower name)) as Hget.
      destruct (bs4.containers_get _ _); [|done].
      destruct Hget as [Hin _]. unfold Doc.set_apart in Hin.
      rewrite !elem_of_cons in Hin.
      destruct Hin as [?|[?|[?|[?|[?|Hin]]]]]; try done.
      by apply elem_of_nil in Hin. }
  unfold parse_links, effective_base_url, BeautifulSoup, bs4.find.
  by rewrite Hscan, Hinner, !find_all_wrapped.
Qed.

(** X11. A [<base>] applies to the whole page wherever it stands, in
    the head, after the links or deep inside the body: two pages that
    have the same anchors in the same places, and the same [href] on
    their first [<base>] that carries one (or no such [<base>]), give
    the same links. *)
Theorem parse_links_base_anywhere html moved base_url from_encoding doc doc' :
  scan html from_encoding = Ok doc →
  scan moved from_encoding = Ok doc' →
  Doc.placed_anchors doc = Doc.placed_anchors doc' →
  Doc.href <$> Doc.first_base doc = Doc.href <$> Doc.first_base doc' →
  parse_links scan html base_url from_encoding
  = parse_links scan moved base_url from_encoding.
Proof.
  intros Hdoc Hdoc' Hanchors Hbase.
  rewrite (parse_links_anchors scan _ _ _ _ Hdoc).
  rewrite (parse_links_anchors scan _ _ _ _ Hdoc').
  rewrite !effective_base_url_eq, Hanchors.
  destruct (Doc.first_base doc) as [b|], (Doc.first_base doc') as [b'|];
    simpl in Hbase; try done.
  injection Hbase as ->. done.
Qed.

End shape_of_the_page.

(** ** When URL resolution cannot fail *)

Section resolvable.

Context {Html : Type} (scan : Html → option string → result (list markup)).

Lemma contains_substring c n m s :
  Str.contains c (String.substring n m s) = true → Str.contains c s = true.
Proof.
  revert n m. induction s as [|d s IH]; intros [|n] [|m]; simpl; try done.
  - destruct (Ascii.eqb c d); [done|]. apply IH.
  - destruct (Ascii.eqb c d); [done|]. apply IH.
  - destruct (Ascii.eqb c d); [done|]. apply IH.
Qed.

Lemma contains_lstrip_by c p s :
  Str.contains c (Str.lstrip_by p s) = true → Str.contains c s = true.
Proof.
  induction s as [|d s IH]; simpl; [done|].
  destruct (p d); simpl; [|done].
  destruct (Ascii.eqb c d); [done|]. apply IH.
Qed.

Lemma contains_remove c d s :
  Str.contains c (Str.remove d s) = true → Str.contains c s = true.
Proof.
  induction s as [|x s IH]; simpl; [done|].
  destruct (Ascii.eqb d x); simpl; destruct (Ascii.eqb c x); auto.
Qed.

Lemma no_bracket_substring n m s :
  no_bracket s → no_bracket (String.substring n m s).
Proof.
  intros [Hl Hr]. split; apply not_true_is_false;
    intros H%contains_substring; congruence.
Qed.

Lemma no_bracket_prepared s :
  no_bracket s →
  no_bracket (urllib.remove_unsafe
                (Str.lstrip_by urllib.c0_control_or_space s)).
Proof.
  intros [Hl Hr]. unfold urllib.remove_unsafe.
  split; apply not_true_is_false;
    intros H%contains_remove%contains_remove%contains_remove%contains_lstrip_by;
    congruence.
Qed.

Lemma urlsplit_no_bracket url scheme :
  no_bracket url → ∃ r, urllib.urlsplit url scheme = Ok r.
Proof.
  intros Hurl%no_bracket_prepared.
  unfold urllib.urlsplit, urllib.urlsplit_key, urllib.urlsplit_parse.
  cbn [fst snd].
  set (url1 := urllib.remove_unsafe
                 (Str.lstrip_by urllib.c0_control_or_space url)) in *.
  set (scheme1 := urllib.remove_unsafe
                    (Str.strip_by urllib.c0_control_or_space scheme)).
  destruct (match Str.find ":" 0 url1 with
            | Some (S i') => _
            | _ => _
            end) as [scheme2 url2] eqn:Hsplit.
  assert (no_bracket url2) as Hurl2.
  { destruct (Str.find ":" 0 url1) as [[|i']|]; simplify_eq; try done.
    destruct (_ && _); simplify_eq; [|done].
    by apply no_bracket_substring. }
  destruct (String.eqb (Str.upto 2 url2) "//").
  - unfold urllib._splitnetloc.
    set (netloc := String.substring 2 _ url2).
    assert (no_bracket netloc) as [Hl Hr] by by apply no_bracket_substring.
    rewrite Hl, Hr. simpl. repeat case_match; eauto.
  - simpl. repeat case_match; eauto.
Qed.

Lemma urlparse_no_bracket url scheme :
  no_bracket url → ∃ r, urllib.urlparse url scheme = Ok r.
Proof.
  intros [r Hr]%(urlsplit_no_bracket url scheme). unfold urllib.urlparse.
  rewrite Hr. simpl. eauto.
Qed.

(** [urljoin] resolves any two strings without square brackets. *)
Lemma urljoin_no_bracket base url :
  no_bracket base → no_bracket url → ∃ joined, urllib.urljoin base url = Ok joined.
Proof.
  intros Hbase Hurl. unfold urllib.urljoin.
  destruct (negb (urllib.nonempty base)); [eauto|].
  destruct (negb (urllib.nonempty url)); [eauto|].
  destruct (urlparse_no_bracket base "" Hbase) as [b ->]. simpl.
  destruct (urlparse_no_bracket url (urllib.scheme b) Hurl) as [u ->]. simpl.
  eauto.
Qed.

(** X12. URL resolution fails on square brackets only: on a page that
    the parser accepts, when the effective base URL and the [href] of
    every anchor are free of them, [parse_links] raises nothing and
    yields one triple for every anchor that carries an [href]. *)
Theorem parse_links_resolvable html base_url from_encoding doc base :
  scan html from_encoding = Ok doc →
  effective_base_url (bs4.soup_of doc) base_url = Ok (Some base) →
  no_bracket base →
  Forall (λ m, no_bracket (Doc.href m)) (Doc.anchors doc) →
  raised (parse_links scan html base_url from_encoding) = None
  ∧ length (yielded (parse_links scan html base_url from_encoding))
    = length (Doc.anchors doc).
Proof.
  intros Hscan Hbase Hnb Hall.
  assert (raised (parse_links scan html base_url from_encoding) = None)
    as Hnone.
  { rewrite (parse_links_anchors scan _ _ _ _ Hscan), Hbase.
    apply for_yield_all_ok, Forall_forall.
    intros [ancestors m] (i & Hi)%list_elem_of_lookup_1. simpl.
    destruct (urljoin_no_bracket base (Doc.href m)) as [u ->]; [done| |].
    - eapply Forall_lookup_1 in Hall; [exact Hall|].
      by rewrite anchors_placed, list_lookup_fmap, Hi.
    - simpl. eauto. }
  split; [done|]. by apply (parse_links_complete scan _ _ _ _ Hscan).
Qed.

End resolvable.

(** ** Separate calls under the cache of later interpreters *)

Section independence_lru.

Context {Html : Type} (scan : Html → option string → result (list markup)).

(** X13. The same independence holds under the result cache of
    CPython 3.11 and later, [functools.lru_cache]: whatever results of
    [urlsplit] the cache holds to begin with, and in whatever order the
    generators of any number of calls are advanced, each gives what its
    call gives when iterated alone. *)
Theorem parse_links_calls_independent_lru
    (calls : list (Html * option string * option string))
    (links : with_cache.lru) schedule it html base_url from_encoding :
  with_cache.valid_lru links →
  calls !! it = Some (html, base_url, from_encoding) →
  observed it
    (run_shared
       ((λ call, with_cache.parse_links with_cache.urlsplit_lru scan
                   call.1.1 call.1.2 call.2) <$> calls) links schedule)
  = iterate (turns it schedule)
      (parse_links scan html base_url from_encoding).
Proof.
  intros Hvalid Hcall.
  exact (parse_links_observed with_cache.valid_lru with_cache.urlsplit_lru
           urlsplit_lru_sound scan calls _ schedule it _ Hvalid Hcall).
Qed.

End independence_lru.

(** ** The further properties on the example pages *)

Lemma parse_links_without_base_witness :
  as_markup page_index None = Ok page_index
  ∧ Doc.first_base page_index = None
  ∧ raised (parse_links as_markup page_index None None) = None
  ∧ Forall2 (λ m t, t.1.2 = Doc.href m ∧ t.2 = Doc.attributes m)
      (Doc.anchors page_index)
      (yielded (parse_links as_markup page_index None None)).
Proof.
  assert (Doc.first_base page_index = None) as Hnone
    by (vm_compute; reflexivity).
  destruct (parse_links_without_base as_markup page_index None page_index
              eq_refl Hnone) as [Hraised Hall].
  split_and!; try assumption. reflexivity.
Defined.

Lemma parse_links_failure_point_witness :
  let links := parse_links as_markup page_bad_href (Some "http://a/") None in
  let e := ValueError "Invalid IPv6 URL" in
  raised links = Some e
  ∧ length (yielded links) = 1
  ∧ (as_markup page_bad_href None = Err e
     ∨ ∃ doc,
         as_markup page_bad_href None = Ok doc
         ∧ ((∃ b supplied,
               Doc.first_base doc = Some b ∧ Some "http://a/" = Some supplied
               ∧ urllib.urljoin supplied (Doc.href b) = Err e)
            ∨ (∃ base i m,
                 effective_base_url (bs4.soup_of doc) (Some "http://a/")
                 = Ok base
                 ∧ Doc.anchors doc !! i = Some m
                 ∧ basejoin base (Doc.href m) = Err e
                 ∧ Forall (λ m', ∃ url, basejoin base (Doc.href m') = Ok url)
                     (take i (Doc.anchors doc))))).
Proof.
  intros links e.
  assert (raised links = Some e) as Hraised by (vm_compute; reflexivity).
  split; [exact Hraised|]. split; [vm_compute; reflexivity|].
  exact (proj1 (parse_links_failure_point as_markup page_bad_href
                  (Some "http://a/") None e) Hraised).
Defined.

Lemma parse_project_page_first_error_witness :
  let links := parse_links as_markup page_two_parts (Some "http://a/") None in
  let e := RaisedBy "from_link" "PkgB" in
  parse_project_page as_markup picky page_two_parts (Some "http://a/")
    None None = Err e
  ∧ raised links = Some (ValueError "Invalid IPv6 URL")
  ∧ ((∃ i t, yielded links !! i = Some t
        ∧ picky (link_of t) None = Err e
        ∧ Forall (λ t', ∃ package, picky (link_of t') None = Ok package)
            (take i (yielded links)))
     ∨ (raised links = Some e
        ∧ Forall (λ t', ∃ package, picky (link_of t') None = Ok package)
            (yielded links))).
Proof.
  intros links e.
  assert (parse_project_page as_markup picky page_two_parts
            (Some "http://a/") None None = Err e) as Herr
    by (vm_compute; reflexivity).
  split; [exact Herr|]. split; [vm_compute; reflexivity|].
  exact (proj1 (parse_project_page_first_error as_markup picky
                  page_two_parts (Some "http://a/") None None e) Herr).
Defined.

Lemma parse_project_page_per_anchor_witness :
  ∃ files doc base,
    parse_project_page as_markup link_itself page_with_base
      (Some "http://a/b/") None None = Ok files
    ∧ url <$> files = ["http://a/b/c/d"]
    ∧ as_markup page_with_base None = Ok doc
    ∧ effective_base_url (bs4.soup_of doc) (Some "http://a/b/") = Ok base
    ∧ Forall2 (λ m package,
                 ∃ text url,
                   basejoin base (Doc.href m) = Ok url
                   ∧ link_itself (mkLink text url (Doc.attributes m)) None
                     = Ok package)
        (Doc.anchors doc) files.
Proof.
  assert (∃ files,
            parse_project_page as_markup link_itself page_with_base
              (Some "http://a/b/") None None = Ok files
            ∧ url <$> files = ["http://a/b/c/d"]) as (files & Hok & Hurl).
  { eexists. split; vm_compute; reflexivity. }
  destruct (parse_project_page_per_anchor as_markup link_itself
              page_with_base (Some "http://a/b/") None None files Hok)
    as (doc & base & Hdoc & Hbase & Hall).
  exists files, doc, base. split_and!; assumption.
Defined.

Lemma parse_links_empty_href_witness :
  let m := Element "a" [("href", None)] [Data NavigableString "here"] in
  ∃ t,
    as_markup page_empty_href None = Ok page_empty_href
    ∧ Doc.anchors page_empty_href !! 0 = Some m
    ∧ yielded (parse_links as_markup page_empty_href None None) !! 0 = Some t
    ∧ Doc.href m = ""
    ∧ effective_base_url (bs4.soup_of page_empty_href) None
      = Ok (Some "http://x/y/")
    ∧ t.1.2 = "http://x/y/".
Proof.
  intros m.
  assert (Doc.anchors page_empty_href !! 0 = Some m) as Hm
    by (vm_compute; reflexivity).
  assert (∃ t, yielded (parse_links as_markup page_empty_href None None) !! 0
               = Some t) as (t & Ht).
  { eexists. vm_compute; reflexivity. }
  assert (Doc.href m = "") as Hempty by (vm_compute; reflexivity).
  assert (effective_base_url (bs4.soup_of page_empty_href) None
          = Ok (Some "http://x/y/")) as Hbase
    by (vm_compute; reflexivity).
  pose proof (parse_links_empty_href as_markup page_empty_href None None
                page_empty_href 0 m t "http://x/y/" eq_refl Hm Ht Hempty
                Hbase) as Hurl.
  exists t. split_and!; try assumption. reflexivity.
Defined.

Lemma parse_links_blank_text_witness :
  ∃ t,
    as_markup page_empty_href None = Ok page_empty_href
    ∧ Doc.placed_anchors page_empty_href !! 1 = Some ([], anchor_no_text)
    ∧ yielded (parse_links as_markup page_empty_href None None) !! 1 = Some t
    ∧ Doc.text_nodes (Doc.tag_of [] anchor_no_text) = ["a { }"]
    ∧ Doc.link_text (Doc.apart []) (Doc.tag_of [] anchor_no_text) = []
    ∧ (t.1.1 = ""
       ↔ Forall (λ s, Str.all Str.isspace s = true)
           (Doc.link_text (Doc.apart []) (Doc.tag_of [] anchor_no_text)))
    ∧ t.1.1 = "".
Proof.
  assert (Doc.placed_anchors page_empty_href !! 1 = Some ([], anchor_no_text))
    as Hm by (vm_compute; reflexivity).
  assert (∃ t, yielded (parse_links as_markup page_empty_href None None) !! 1
               = Some t ∧ t.1.1 = "") as (t & Ht & Hempty).
  { eexists. split; vm_compute; reflexivity. }
  pose proof (parse_links_blank_text as_markup page_empty_href None None
                page_empty_href 1 [] anchor_no_text t eq_refl Hm Ht) as Hiff.
  exists t. split_and!; try assumption; vm_compute; reflexivity.
Defined.

Lemma parse_links_concat_witness :
  as_markup page_index None = Ok page_index
  ∧ as_markup page_bad_href None = Ok page_bad_href
  ∧ as_markup page_two_parts None = Ok (page_index ++ page_bad_href)
  ∧ Doc.first_base (page_index ++ page_bad_href) = None
  ∧ parse_links as_markup page_two_parts (Some "http://a/") None
    = gen_then (parse_links as_markup page_index (Some "http://a/") None)
               (parse_links as_markup page_bad_href (Some "http://a/") None).
Proof.
  assert (Doc.first_base (page_index ++ page_bad_href) = None) as Hnone
    by (vm_compute; reflexivity).
  split_and!; [reflexivity | reflexivity | reflexivity | exact Hnone |].
  exact (parse_links_concat as_markup page_two_parts page_index
           page_bad_href (Some "http://a/") None page_index page_bad_href
           eq_refl eq_refl eq_refl Hnone).
Defined.

Lemma parse_links_wrapped_witness :
  as_markup page_index None = Ok page_index
  ∧ as_markup page_wrapped None
    = Ok [Element "DIV" [("id", Some "main")] page_index]
  ∧ (Str.lower "DIV"
       ∉ ["a"; "base"; "pre"; "textarea"; "script"; "style"; "template";
          "rt"; "rp"])
  ∧ parse_links as_markup page_wrapped None None
    = parse_links as_markup page_index None None.
Proof.
  assert (Str.lower "DIV"
            ∉ ["a"; "base"; "pre"; "textarea"; "script"; "style"; "template";
               "rt"; "rp"]) as Hname.
  { apply (bool_decide_unpack _). vm_compute. exact I. }
  split_and!; [reflexivity | reflexivity | exact Hname |].
  exact (parse_links_wrapped as_markup page_wrapped page_index
           "DIV" [("id", Some "main")] None None page_index
           eq_refl eq_refl Hname).
Defined.

(** The page with its [<base>] in the head and the page with the
    [<base>] at the end of the body, inside one more element. *)
Lemma parse_links_base_anywhere_witness :
  as_markup page_with_base None = Ok page_with_base
  ∧ as_markup page_base_in_body None = Ok page_base_in_body
  ∧ Doc.placed_anchors page_with_base = Doc.placed_anchors page_base_in_body
  ∧ Doc.href <$> Doc.first_base page_with_base
    = Doc.href <$> Doc.first_base page_base_in_body
  ∧ parse_links as_markup page_with_base None None
    = parse_links as_markup page_base_in_body None None
  ∧ (λ t, t.1.2)
      <$> yielded (parse_links as_markup page_base_in_body None None)
    = ["c/d"].
Proof.
  assert (Doc.placed_anchors page_with_base
          = Doc.placed_anchors page_base_in_body) as Hanchors
    by (vm_compute; reflexivity).
  assert (Doc.href <$> Doc.first_base page_with_base
          = Doc.href <$> Doc.first_base page_base_in_body) as Hbase
    by (vm_compute; reflexivity).
  split_and!; [reflexivity | reflexivity | exact Hanchors | exact Hbase
              | | (vm_compute; reflexivity)].
  exact (parse_links_base_anywhere as_markup page_with_base page_base_in_body
           None None page_with_base page_base_in_body
           eq_refl eq_refl Hanchors Hbase).
Defined.

Lemma parse_links_resolvable_witness :
  as_markup page_with_base None = Ok page_with_base
  ∧ effective_base_url (bs4.soup_of page_with_base) (Some "http://a/b/")
    = Ok (Some "http://a/b/c/")
  ∧ no_bracket "http://a/b/c/"
  ∧ Forall (λ m, no_bracket (Doc.href m)) (Doc.anchors page_with_base)
  ∧ raised (parse_links as_markup page_with_base (Some "http://a/b/") None)
    = None
  ∧ length (yielded (parse_links as_markup page_with_base
                       (Some "http://a/b/") None))
    = length (Doc.anchors page_with_base).
Proof.
  assert (effective_base_url (bs4.soup_of page_with_base)
            (Some "http://a/b/") = Ok (Some "http://a/b/c/")) as Hbase
    by (vm_compute; reflexivity).
  assert (no_bracket "http://a/b/c/") as Hnb
    by (split; vm_compute; reflexivity).
  assert (Forall (λ m, no_bracket (Doc.href m))
            (Doc.anchors page_with_base)) as Hall.
  { replace (Doc.anchors page_with_base)
      with [Element "a" [("href", Some "d")] [Data NavigableString "d"]]
      by (vm_compute; reflexivity).
    constructor; [split; vm_compute; reflexivity | constructor]. }
  destruct (parse_links_resolvable as_markup page_with_base
              (Some "http://a/b/") None page_with_base "http://a/b/c/"
              eq_refl Hbase Hnb Hall)
    as [Hraised Hlen].
  split_and!; try assumption. reflexivity.
Defined.

(** Two calls on the page with the link that cannot be resolved, their
    generators advanced in turns, starting from an empty [lru_cache]. *)
Lemma parse_links_calls_independent_lru_witness :
  let calls :=
    [(page_bad_href, Some "http://a/", None);
     (page_bad_href, Some "http://a/", None)] in
  let schedule := [1; 0; 0; 1; 1; 0; 0] in
  let trace :=
    run_shared
      ((λ call, with_cache.parse_links with_cache.urlsplit_lru as_markup
                  call.1.1 call.1.2 call.2) <$> calls) [] schedule in
  with_cache.valid_lru []
  ∧ observed 1 trace
    = iterate 3 (parse_links as_markup page_bad_href (Some "http://a/") None)
  ∧ (λ ev, match ev with Item t => Some t.1.2 | _ => None end)
      <$> observed 1 trace
    = [Some "http://a/first"; None; None].
Proof.
  intros calls schedule trace.
  assert (with_cache.valid_lru []) as Hvalid by constructor.
  split_and!.
  - exact Hvalid.
  - exact (parse_links_calls_independent_lru as_markup calls [] schedule 1
             page_bad_href (Some "http://a/") None Hvalid eq_refl).
  - vm_compute; reflexivity.
Defined.
